(** * predict: reference-link classification and CVE record building

    A shallow embedding of [predict/cve.py], of the CVE page of
    [predict/views.py] and of [predict/auth.py], followed by the
    properties of the specification and of the code that concern them.

    Python strings are modelled as [string], i.e. sequences of 8-bit
    characters; [str.upper] and the character classes of the regular
    expressions act on the ASCII range.  A Python call that can raise is a
    function into [pyres]. *)

From Stdlib Require Import String Ascii List Bool Arith ZArith Lia Permutation.
Import ListNotations.
Local Open Scope string_scope.
Local Open Scope list_scope.
Local Open Scope nat_scope.

(** ** Python values and exceptions *)

Module Py.

(** The exceptions that the modelled code can let escape. *)
Inductive exn : Type :=
| KeyError
| IndexError
| TypeError
| AttributeError
| ValueError
| RequestException.

(** Outcome of a Python call: a returned value or a raised exception. *)
Inductive pyres (A : Type) : Type :=
| Ret (a : A)
| Raise (e : exn).
Arguments Ret {A} a.
Arguments Raise {A} e.

Definition bind {A B} (r : pyres A) (k : A -> pyres B) : pyres B :=
  match r with
  | Ret a => k a
  | Raise e => Raise e
  end.

Set Warnings "-register-all".

(** A value decoded from JSON by [response.json()]: [None], a bool, an
    integer, a [str], a [list] or a [dict] with [str] keys (the first
    binding of a key is the one the dict holds). *)
Inductive value : Type :=
| VNone
| VBool (b : bool)
| VInt (z : Z)
| VStr (s : string)
| VList (l : list value)
| VDict (d : list (string * value)).

Set Warnings "register-all".

(** Truth value of an object, as tested by [if x]. *)
Definition truthy (v : value) : bool :=
  match v with
  | VNone => false
  | VBool b => b
  | VInt z => negb (Z.eqb z 0)
  | VStr s => negb (String.eqb s "")
  | VList l => match l with [] => false | _ => true end
  | VDict d => match d with [] => false | _ => true end
  end.

Fixpoint assoc {A} (k : string) (d : list (string * A)) : option A :=
  match d with
  | [] => None
  | (k', v) :: d' => if String.eqb k k' then Some v else assoc k d'
  end.

(** [v[key]] for a [str] key. *)
Definition getitem (v : value) (key : string) : pyres value :=
  match v with
  | VDict d => match assoc key d with
               | Some x => Ret x
               | None => Raise KeyError
               end
  | _ => Raise TypeError
  end.

(** [v[0]]. *)
Definition first (v : value) : pyres value :=
  match v with
  | VList (x :: _) => Ret x
  | VList [] => Raise IndexError
  | VStr (String c _) => Ret (VStr (String c ""))
  | VStr EmptyString => Raise IndexError
  | VDict _ => Raise KeyError
  | _ => Raise TypeError
  end.

Fixpoint chars (s : string) : list string :=
  match s with
  | EmptyString => []
  | String c s' => String c "" :: chars s'
  end.

(** The items produced by iterating over [v] ([map(f, v)]). *)
Definition iterate (v : value) : pyres (list value) :=
  match v with
  | VList l => Ret l
  | VDict d => Ret (map (fun kv => VStr (fst kv)) d)
  | VStr s => Ret (map VStr (chars s))
  | _ => Raise TypeError
  end.

Notation "x <- c ;; k" := (bind c (fun x => k))
  (at level 61, c at next level, right associativity).

(** [list(map(f, l))] where [f] can raise: stops at the first exception. *)
Fixpoint mapM {A B} (f : A -> pyres B) (l : list A) : pyres (list B) :=
  match l with
  | [] => Ret []
  | a :: l' => b <- f a ;; bs <- mapM f l' ;; Ret (b :: bs)
  end.

(** [needle in s] on strings. *)
Fixpoint contains (needle s : string) : bool :=
  if String.prefix needle s then true
  else match s with
       | EmptyString => false
       | String _ s' => contains needle s'
       end.

Definition upper_char (c : ascii) : ascii :=
  let n := nat_of_ascii c in
  if (97 <=? n) && (n <=? 122) then ascii_of_nat (n - 32) else c.

Definition lower_char (c : ascii) : ascii :=
  let n := nat_of_ascii c in
  if (65 <=? n) && (n <=? 90) then ascii_of_nat (n + 32) else c.

Fixpoint map_string (f : ascii -> ascii) (s : string) : string :=
  match s with
  | EmptyString => EmptyString
  | String c s' => String (f c) (map_string f s')
  end.

(** [s.upper()] and [s.lower()]. *)
Definition upper : string -> string := map_string upper_char.
Definition lower : string -> string := map_string lower_char.

Fixpoint forall_chars (p : ascii -> bool) (s : string) : bool :=
  match s with
  | EmptyString => true
  | String c s' => p c && forall_chars p s'
  end.

Fixpoint exists_char (p : ascii -> bool) (s : string) : bool :=
  match s with
  | EmptyString => false
  | String c s' => p c || exists_char p s'
  end.

(** [c in s] for a character [c]. *)
Definition has_char (c : ascii) (s : string) : bool :=
  exists_char (Ascii.eqb c) s.

(** [s[:n]] and [s[n:]]. *)
Fixpoint take (n : nat) (s : string) : string :=
  match n, s with
  | S n', String c s' => String c (take n' s')
  | _, _ => EmptyString
  end.

Fixpoint drop (n : nat) (s : string) : string :=
  match n, s with
  | S n', String _ s' => drop n' s'
  | _, _ => s
  end.

End Py.
Export Py.

(** ** Regular expressions ([re])

    The patterns of [cve.py] are sequences of literal characters, greedy
    repetitions of a character class, capture groups that are not nested,
    and the anchors [^] and [$].  [exec] is the backtracking matcher of
    [re] on such patterns: alternatives are tried in priority order
    (longest repetition first) and the first success is the match. *)

Module Re.

Inductive item : Type :=
| Chr (c : ascii)                                  (* a literal character *)
| Rep (cls : ascii -> bool) (lo : nat) (hi : option nat)
                                                   (* cls{lo,hi}, greedy; [None] is no upper bound *)
| Open                                             (* ( *)
| Close                                            (* ) *)
| Bol                                              (* ^ *)
| Eol.                                             (* $ *)

Definition regex : Type := list item.

Fixpoint lit (s : string) : regex :=
  match s with
  | EmptyString => []
  | String c s' => Chr c :: lit s'
  end.

(** Character classes. *)
Definition in_range (lo hi : nat) (c : ascii) : bool :=
  (lo <=? nat_of_ascii c) && (nat_of_ascii c <=? hi).
Definition digit (c : ascii) : bool := in_range 48 57 c.           (* \d, [0-9] *)
Definition upper_letter (c : ascii) : bool := in_range 65 90 c.    (* [A-Z] *)
Definition lower_letter (c : ascii) : bool := in_range 97 122 c.   (* [a-z] *)
Definition lower_a_f (c : ascii) : bool := in_range 97 102 c.      (* [a-f] *)
Definition is_char (x : ascii) (c : ascii) : bool := Ascii.eqb x c.

(** Matching state: the input left at each group still open (innermost
    first) and the text of the groups already closed (last first). *)
Record mstate : Type := { opened : list string; closed : list string }.

Definition open_group (s : string) (st : mstate) : mstate :=
  {| opened := s :: opened st; closed := closed st |}.

Definition close_group (s : string) (st : mstate) : mstate :=
  match opened st with
  | [] => st
  | s0 :: o => {| opened := o;
                  closed := take (String.length s0 - String.length s) s0 :: closed st |}
  end.

Definition may_take (hi : option nat) : bool :=
  match hi with
  | Some O => false
  | _ => true
  end.

Definition dec (hi : option nat) : option nat := option_map pred hi.

(** Greedy repetition followed by the continuation [k]: take one more
    character when allowed, and give a repetition back when [k] fails. *)
Fixpoint rep {R} (cls : ascii -> bool) (lo : nat) (hi : option nat)
         (k : string -> option R) (s : string) : option R :=
  let stop := match lo with O => k s | S _ => None end in
  match s with
  | String c s' =>
      if cls c && may_take hi then
        match rep cls (pred lo) (dec hi) k s' with
        | Some r => Some r
        | None => stop
        end
      else stop
  | EmptyString => stop
  end.

(** [$] without [re.MULTILINE]: the end of the string, or just before a
    newline that ends the string. *)
Definition at_end (s : string) : bool :=
  match s with
  | EmptyString => true
  | String c EmptyString => Ascii.eqb c "010"%char
  | _ => false
  end.

Fixpoint exec (p : regex) (s0 : string) (st : mstate) (s : string)
  : option (list string) :=
  match p with
  | [] => Some (rev (closed st))
  | Chr c :: p' =>
      match s with
      | String c' s' => if Ascii.eqb c c' then exec p' s0 st s' else None
      | EmptyString => None
      end
  | Rep cls lo hi :: p' => rep cls lo hi (exec p' s0 st) s
  | Open :: p' => exec p' s0 (open_group s st) s
  | Close :: p' => exec p' s0 (close_group s st) s
  | Bol :: p' =>
      if String.length s =? String.length s0 then exec p' s0 st s else None
  | Eol :: p' => if at_end s then exec p' s0 st s else None
  end.

(** [pattern.match(s)]: the match is tried at the start of [s] only; the
    result is the text of groups 1, 2, ... *)
Definition re_match (p : regex) (s : string) : option (list string) :=
  exec p s {| opened := []; closed := [] |} s.

(** [m.group(i)] for [i >= 1]. *)
Definition group (m : list string) (i : nat) : string := nth (i - 1) m "".

End Re.

(** ** URL parsing ([urllib.parse])

    [urlparse] splits a URL as CPython 3.8 does.  [parse_qs] separates
    the fields of a query string at [&] only, as every CPython since 3.9.2
    does (the default [separator='&']): a [;] stays in the field it is
    written in.  [unquote] decodes a percent escape to
    the 8-bit character with that code (the UTF-8 decoding of escaped
    non-ASCII bytes is not modelled). *)

Module Urllib.

Record ParseResult : Type := {
  scheme : string;
  netloc : string;
  path : string;
  params : string;
  query : string;
  fragment : string
}.

(** [s.find(c, start)] and [s.rfind(c)], [None] for -1. *)
Fixpoint find_from (c : ascii) (start : nat) (s : string) : option nat :=
  match s with
  | EmptyString => None
  | String c' s' =>
      match start with
      | O => if Ascii.eqb c c' then Some 0
             else option_map S (find_from c 0 s')
      | S n => option_map S (find_from c n s')
      end
  end.

Definition find (c : ascii) (s : string) : option nat := find_from c 0 s.

Fixpoint rfind (c : ascii) (s : string) : option nat :=
  match s with
  | EmptyString => None
  | String c' s' =>
      match rfind c s' with
      | Some i => Some (S i)
      | None => if Ascii.eqb c c' then Some 0 else None
      end
  end.

(** [s.split(c, 1)] when [c in s]: the text before and after the first [c]. *)
Definition cut (c : ascii) (s : string) : option (string * string) :=
  match find c s with
  | Some i => Some (take i s, drop (S i) s)
  | None => None
  end.

(** [s.split(c)]. *)
Fixpoint split (c : ascii) (s : string) : list string :=
  match s with
  | EmptyString => [""]
  | String c' s' =>
      if Ascii.eqb c c' then "" :: split c s'
      else match split c s' with
           | w :: ws => String c' w :: ws
           | [] => [String c' ""]
           end
  end.

(** [s.replace(a, b)] for characters. *)
Definition replace_char (a b : ascii) : string -> string :=
  map_string (fun c => if Ascii.eqb c a then b else c).

Definition scheme_char (c : ascii) : bool :=
  Re.lower_letter c || Re.upper_letter c || Re.digit c ||
  has_char c "+-.".

Definition uses_params : list string :=
  [""; "ftp"; "hdl"; "prospero"; "http"; "imap"; "https"; "shttp"; "rtsp";
   "rtspu"; "sip"; "sips"; "mms"; "sftp"; "tel"].

Definition mem (s : string) (l : list string) : bool :=
  existsb (String.eqb s) l.

Definition opt_min (a : nat) (b : option nat) : nat :=
  match b with
  | Some n => Nat.min a n
  | None => a
  end.

(** [_splitnetloc(url, 2)]: the domain ends at the first of [/?#]. *)
Definition splitnetloc (url : string) : string * string :=
  let delim :=
    fold_left (fun d c => opt_min d (find_from c 2 url))
              ["/"%char; "?"%char; "#"%char] (String.length url) in
  (take (delim - 2) (drop 2 url), drop delim url).

(** The part of [urlsplit] after the scheme has been set aside. *)
Definition split_rest (sch url : string)
  : pyres (string * string * string * string * string) :=
  nu <- (if String.eqb (take 2 url) "//" then
           let '(nl, u) := splitnetloc url in
           if (has_char "[" nl && negb (has_char "]" nl)) ||
              (has_char "]" nl && negb (has_char "[" nl))
           then Raise ValueError
           else Ret (nl, u)
         else Ret ("", url)) ;;
  let '(nl, url) := nu in
  let '(url, frag) := match cut "#" url with
                      | Some (u, f) => (u, f)
                      | None => (url, "")
                      end in
  let '(url, qry) := match cut "?" url with
                     | Some (u, q) => (u, q)
                     | None => (url, "")
                     end in
  Ret (sch, nl, url, qry, frag).

Definition urlsplit (url : string)
  : pyres (string * string * string * string * string) :=
  match find ":" url with
  | Some (S i') =>
      let i := S i' in
      if String.eqb (take i url) "http" then
        split_rest "http" (drop (i + 1) url)
      else if forall_chars scheme_char (take i url) then
        let rest := drop (i + 1) url in
        if String.eqb rest "" || exists_char (fun c => negb (Re.digit c)) rest
        then split_rest (lower (take i url)) rest
        else split_rest "" url
      else split_rest "" url
  | _ => split_rest "" url
  end.

(** [_splitparams]: the parameters of the last path segment. *)
Definition splitparams (url : string) : string * string :=
  match rfind "/" url with
  | Some j =>
      match find_from ";" j url with
      | Some i => (take i url, drop (S i) url)
      | None => (url, "")
      end
  | None =>
      match find ";" url with
      | Some i => (take i url, drop (S i) url)
      | None => (url, "")
      end
  end.

Definition urlparse_str (url : string) : pyres ParseResult :=
  r <- urlsplit url ;;
  let '(sch, nl, url, qry, frag) := r in
  let '(url, prm) :=
    if mem sch uses_params && has_char ";" url then splitparams url
    else (url, "") in
  Ret {| scheme := sch; netloc := nl; path := url; params := prm;
         query := qry; fragment := frag |}.

(** [urlparse(url)] on an arbitrary object.  A [str] is parsed; any
    other object is coerced with [x.decode(...) if x else ''], so a
    false object parses as the empty URL (its components are empty and
    equal to no non-empty [str]) and a true one has no [decode]. *)
Definition urlparse (url : value) : pyres ParseResult :=
  match url with
  | VStr s => urlparse_str s
  | _ => if truthy url then Raise AttributeError else urlparse_str ""
  end.

Definition hexval (c : ascii) : option nat :=
  let n := nat_of_ascii c in
  if Re.digit c then Some (n - 48)
  else if Re.in_range 65 70 c then Some (n - 55)
  else if Re.in_range 97 102 c then Some (n - 87)
  else None.

Fixpoint unquote_escapes (s : string) : string :=
  match s with
  | EmptyString => EmptyString
  | String c s' =>
      match s' with
      | String a (String b rest) =>
          if Ascii.eqb c "%" then
            match hexval a, hexval b with
            | Some x, Some y =>
                String (ascii_of_nat (16 * x + y)) (unquote_escapes rest)
            | _, _ => String c (unquote_escapes s')
            end
          else String c (unquote_escapes s')
      | _ => String c (unquote_escapes s')
      end
  end.

Definition unquote (s : string) : string :=
  if has_char "%" s then unquote_escapes s else s.

(** [parse_qsl(qs)]: blank fields, fields without [=] and fields with a
    blank value are dropped. *)
Definition parse_field (name_value : string) : list (string * string) :=
  match cut "=" name_value with
  | Some (n, v) =>
      if String.eqb v "" then []
      else [(unquote (replace_char "+" " " n), unquote (replace_char "+" " " v))]
  | None => []
  end.

Definition parse_qsl (qs : string) : list (string * string) :=
  flat_map parse_field (split "&" qs).

(** [parsed_result[name].append(value)] or [parsed_result[name] = [value]]. *)
Fixpoint add_value (name value : string) (d : list (string * list string))
  : list (string * list string) :=
  match d with
  | [] => [(name, [value])]
  | (n, vs) :: d' =>
      if String.eqb name n then (n, vs ++ [value]) :: d'
      else (n, vs) :: add_value name value d'
  end.

Definition parse_qs (qs : string) : list (string * list string) :=
  fold_left (fun d nv => add_value (fst nv) (snd nv) d) (parse_qsl qs) [].

End Urllib.

(** ** [predict/cve.py] *)

Module Cve.
Import Re Urllib.

(** A raw CVE entry, the dict built by [scrape_cve] (keys ["id"],
    ["desc"], ["links"]). *)
Record raw_entry : Type := {
  raw_id : string;
  raw_desc : value;
  raw_links : list value
}.

(** A processed CVE entry, the dict returned by [process_cve] (keys
    ["id"], ["desc"], ["git_links"], ["normal_links"]). *)
Record entry : Type := {
  id : string;
  desc : value;
  git_links : list (value * string);
  normal_links : list value
}.

(** The HTTP response of [requests.get]: [response.ok], and the outcome
    of [response.json()]. *)
Record response : Type := {
  ok : bool;
  json : pyres value
}.

(** Where a link goes in the processed entry: a tuple (old link,
    converted link) for ["git_links"], or the link itself for
    ["normal_links"]. *)
Inductive link_class : Type :=
| GitLink (old : value) (converted : string)
| NormalLink (link : value).

(** [cve_pattern = re.compile("^CVE-\d{4}-\d{4,7}$")] *)
Definition cve_pattern : regex :=
  [Bol] ++ lit "CVE-" ++ [Rep digit 4 (Some 4)] ++ lit "-" ++
  [Rep digit 4 (Some 7); Eol].

Definition is_valid_cve_id (cve_id : string) : bool :=
  match re_match cve_pattern cve_id with
  | Some _ => true
  | None => false
  end.

(** [[A-Za-z0-9\-]] and [[0-9a-f]] *)
Definition name_char (c : ascii) : bool :=
  upper_letter c || lower_letter c || digit c || is_char "-" c.
Definition hash_char (c : ascii) : bool := digit c || lower_a_f c.

(** [github_pattern = re.compile(
      "\/?([A-Za-z0-9\-]+)\/([A-Za-z0-9\-]+)\/commit\/([0-9a-f]{5,40})\/?$")] *)
Definition github_pattern : regex :=
  [Rep (is_char "/") 0 (Some 1);
   Open; Rep name_char 1 None; Close] ++ lit "/" ++
  [Open; Rep name_char 1 None; Close] ++ lit "/commit/" ++
  [Open; Rep hash_char 5 (Some 40); Close;
   Rep (is_char "/") 0 (Some 1); Eol].

Definition is_github_link (parsed_link : ParseResult) : bool :=
  (String.eqb (netloc parsed_link) "github.com" ||
   String.eqb (netloc parsed_link) "www.github.com") &&
  match re_match github_pattern (path parsed_link) with
  | Some _ => true
  | None => false
  end.

(** A dictionary mapping known repositories to their github mirrors. *)
Definition known_repositories : list (string * (string * string)) :=
  [("git.qemu.org", ("qemu", "qemu"));
   ("git.openssl.org", ("openssl", "openssl"));
   ("git.kernel.org", ("torvalds", "linux"));
   ("git.videolan.org", ("FFmpeg", "FFmpeg"));
   ("git.libav.org", ("libav", "libav"));
   ("libvirt.org", ("libvirt", "libvirt"))].

(** [d[key][0]] on the dict returned by [parse_qs]. *)
Definition first_value (d : list (string * list string)) (key : string)
  : pyres string :=
  match assoc key d with
  | None => Raise KeyError
  | Some [] => Raise IndexError
  | Some (v :: _) => Ret v
  end.

Definition has_key {A} (key : string) (d : list (string * A)) : bool :=
  match assoc key d with
  | Some _ => true
  | None => false
  end.

Definition is_git_link (parsed_link : ParseResult) : pyres bool :=
  let query := parse_qs (query parsed_link) in
  if negb (has_key "a" query) then Ret false
  else if has_key (netloc parsed_link) known_repositories then
    a <- first_value query "a" ;;
    Ret (contains "commit" a)
  else Ret false.

Section WithCollaborators.

(** [flask.url_for(endpoint, cve_id=..., repo_user=..., repo_name=...,
    commit=...)], the routing function of the application. *)
Variable url_for : string -> string -> string -> string -> string -> string.

(** [requests.get(url)], the answer of the network. *)
Variable requests_get : string -> pyres response.

Definition convert_github_link (cve_id : string) (parsed_link : ParseResult)
  : pyres string :=
  match re_match github_pattern (path parsed_link) with
  | None => Raise AttributeError
  | Some m =>
      Ret (url_for "main.info_page" cve_id (group m 1) (group m 2) (group m 3))
  end.

Definition convert_git_link (cve_id : string) (parsed_link : ParseResult)
  : pyres string :=
  let query := parse_qs (query parsed_link) in
  match assoc (netloc parsed_link) known_repositories with
  | None => Raise KeyError
  | Some (repo_user, repo_name) =>
      commit <- first_value query "h" ;;
      Ret (url_for "main.info_page" cve_id repo_user repo_name commit)
  end.

(** The body of the loop of [process_cve]: what is done with one link. *)
Definition classify (cve_id : string) (link : value) : pyres link_class :=
  parsed_link <- urlparse link ;;
  if is_github_link parsed_link then
    c <- convert_github_link cve_id parsed_link ;;
    Ret (GitLink link c)
  else
    g <- is_git_link parsed_link ;;
    if g then
      c <- convert_git_link cve_id parsed_link ;;
      Ret (GitLink link c)
    else Ret (NormalLink link).

Definition append_link (e : entry) (c : link_class) : entry :=
  match c with
  | GitLink old converted =>
      {| id := id e; desc := desc e;
         git_links := git_links e ++ [(old, converted)];
         normal_links := normal_links e |}
  | NormalLink link =>
      {| id := id e; desc := desc e;
         git_links := git_links e;
         normal_links := normal_links e ++ [link] |}
  end.

(** [for link in links: ...] *)
Fixpoint process_links (links : list value) (e : entry) : pyres entry :=
  match links with
  | [] => Ret e
  | link :: links' =>
      c <- classify (id e) link ;;
      process_links links' (append_link e c)
  end.

Definition process_cve (e : raw_entry) : pyres entry :=
  process_links (raw_links e)
    {| id := raw_id e; desc := raw_desc e; git_links := []; normal_links := [] |}.

(** Computations that talk to the network: the state is the list of the
    URLs requested so far, oldest first. *)
Definition M (A : Type) : Type := list string -> pyres A * list string.

Definition ret {A} (a : A) : M A := fun log => (Ret a, log).

Definition lift {A} (r : pyres A) : M A := fun log => (r, log).

Definition bindM {A B} (c : M A) (k : A -> M B) : M B :=
  fun log =>
    match c log with
    | (Ret a, log') => k a log'
    | (Raise e, log') => (Raise e, log')
    end.

Definition http_get (url : string) : M response :=
  fun log => (requests_get url, log ++ [url]).

Definition scrape_cve (cve_id : string) : M (option raw_entry) :=
  let url := ("https://services.nvd.nist.gov/rest/json/cve/1.0/" ++ cve_id)%string in
  bindM (http_get url) (fun response =>
  if negb (ok response) then ret None
  else lift (
    data <- json response ;;
    result <- getitem data "result" ;;
    items <- getitem result "CVE_Items" ;;
    item <- first items ;;
    cve <- getitem item "cve" ;;
    description <- getitem cve "description" ;;
    description_data <- getitem description "description_data" ;;
    d0 <- first description_data ;;
    dsc <- getitem d0 "value" ;;
    references <- getitem cve "references" ;;
    reference_data <- getitem references "reference_data" ;;
    refs <- iterate reference_data ;;
    links <- mapM (fun reference => getitem reference "url") refs ;;
    Ret (Some {| raw_id := cve_id; raw_desc := dsc; raw_links := links |}))).

Definition get_cve (cve_id : string) : M (option entry) :=
  let cve_id := upper cve_id in
  if is_valid_cve_id cve_id then
    bindM (scrape_cve cve_id) (fun raw_cve =>
    match raw_cve with
    | Some raw => lift (e <- process_cve raw ;; Ret (Some e))
    | None => ret None
    end)
  else ret None.

End WithCollaborators.

(** A routing function for the route
    ["/cve/<cve_id>/info/<repo_user>/<repo_name>/<commit>"] of [views.py]. *)
Definition info_page_url (endpoint cve_id repo_user repo_name commit : string)
  : string :=
  ("/cve/" ++ cve_id ++ "/info/" ++ repo_user ++ "/" ++ repo_name ++ "/"
   ++ commit)%string.

(** A network on which no CVE exists. *)
Definition no_such_cve (url : string) : pyres response :=
  Ret {| ok := false; json := Raise ValueError |}.

End Cve.

(** ** Vocabulary of the specification *)

(** The two failures that the specification names for building a record. *)
Inductive failure_kind : Type :=
| InvalidIdentifier
| NotFound.

(** The first character of [s] satisfies [p]. *)
Definition head_in (p : ascii -> bool) (s : string) : bool :=
  match s with
  | EmptyString => false
  | String c _ => p c
  end.

(** The link is routed to ["git_links"]. *)
Definition routed (url_for : string -> string -> string -> string -> string -> string)
           (cve_id : string) (link : value) : bool :=
  match Cve.classify url_for cve_id link with
  | Ret (Cve.GitLink _ _) => true
  | _ => false
  end.

Import Re Urllib Cve.
Local Open Scope string_scope.

(** ** Shapes of the strings the patterns accept *)

Definition newline : string := String "010" "".

(** ["CVE-"], four digits, ["-"], four to seven digits, and possibly one
    newline at the very end. *)
Definition cve_shape (s : string) : Prop :=
  exists year number nl,
    s = "CVE-" ++ year ++ "-" ++ number ++ nl /\
    String.length year = 4 /\ forall_chars digit year = true /\
    4 <= String.length number <= 7 /\ forall_chars digit number = true /\
    (nl = "" \/ nl = newline).

(** An optional [/], a name, [/], a name, ["/commit/"], five to forty
    lowercase hex characters, an optional [/], and possibly one newline at
    the very end. *)
Definition github_shape (p owner repo hash : string) : Prop :=
  exists lead slash nl,
    p = lead ++ owner ++ "/" ++ repo ++ "/commit/" ++ hash ++ slash ++ nl /\
    (lead = "" \/ lead = "/") /\
    owner <> "" /\ forall_chars name_char owner = true /\
    repo <> "" /\ forall_chars name_char repo = true /\
    5 <= String.length hash <= 40 /\ forall_chars hash_char hash = true /\
    (slash = "" \/ slash = "/") /\
    (nl = "" \/ nl = newline).

(** ** What one classified link adds to each list *)

Definition git_of (c : link_class) : list (value * string) :=
  match c with
  | GitLink old converted => [(old, converted)]
  | NormalLink _ => []
  end.

Definition normal_of (c : link_class) : list value :=
  match c with
  | GitLink _ _ => []
  | NormalLink link => [link]
  end.

(** ** A response body of the shape that [scrape_cve] reads

    An object with the description at
    [result.CVE_Items[0].cve.description.description_data[0].value] and the
    links at [result.CVE_Items[0].cve.references.reference_data[i].url]. *)
Definition nvd_body (description : value) (links : list value) : value :=
  VDict [("result",
    VDict [("CVE_Items",
      VList [VDict [("cve",
        VDict [("description",
                VDict [("description_data",
                        VList [VDict [("value", description)]])]);
               ("references",
                VDict [("reference_data",
                        VList (map (fun u => VDict [("url", u)]) links))])])]])])].

(** The page of the NVD that [scrape_cve] requests. *)
Definition nvd_url (cve_id : string) : string :=
  "https://services.nvd.nist.gov/rest/json/cve/1.0/" ++ cve_id.

(** ** Networks for the examples *)

Definition heartbleed_links : list value :=
  [VStr "https://example.com/advisory";
   VStr "https://github.com/openssl/openssl/commit/96db902";
   VStr "http://git.openssl.org/gitweb/?p=openssl.git&a=commitdiff&h=96db902"].

(** A network that knows CVE-2014-0160 only. *)
Definition one_cve (url : string) : pyres response :=
  if String.eqb url (nvd_url "CVE-2014-0160") then
    Ret {| ok := true;
           json := Ret (nvd_body (VStr "Heartbleed") heartbleed_links) |}
  else Ret {| ok := false; json := Raise ValueError |}.

(** A network that cannot be reached. *)
Definition unreachable (url : string) : pyres response :=
  Raise RequestException.

(** A network that answers every request with an empty list of items. *)
Definition no_items (url : string) : pyres response :=
  Ret {| ok := true;
         json := Ret (VDict [("result", VDict [("CVE_Items", VList [])])]) |}.

(** ** The CVE page of [predict/views.py] *)

Module Views.


Section WithCollaborators.

Variable url_for : string -> string -> string -> string -> string -> string.
Variable requests_get : string -> pyres response.


End WithCollaborators.

End Views.
Import Views.

(** ** [predict/auth.py]

    The table of [predict.models.User] is a list of rows in insertion
    order; [User.query.filter_by(username=...)] selects the rows with that
    username, [.first()] is the first of them or [None], and [.scalar()]
    is [None] for no row, the row for one row, and raises
    [MultipleResultsFound] for several.  [flask_login.login_user] records
    the user in the session. *)

Module Auth.

Record User : Type := {
  username : string;
  password_hash : string
}.

(** The table of users and the user logged in, if any. *)
Record state : Type := {
  users : list User;
  session_user : option User
}.

Inductive outcome (A : Type) : Type :=
| Done (a : A)
| MultipleResultsFound.
Arguments Done {A} a.
Arguments MultipleResultsFound {A}.

Definition filter_by (name : string) (table : list User) : list User :=
  filter (fun u => String.eqb (username u) name) table.

Definition first_row (rows : list User) : option User :=
  match rows with
  | [] => None
  | u :: _ => Some u
  end.

Definition scalar (rows : list User) : outcome (option User) :=
  match rows with
  | [] => Done None
  | [u] => Done (Some u)
  | _ => MultipleResultsFound
  end.

Definition login_user (st : state) (user : User) : state :=
  {| users := users st; session_user := Some user |}.

Section WithWerkzeug.

(** [werkzeug.security]: the hash generated for a password, and the check
    of a password against a hash. *)
Variable generate_password_hash : string -> string.
Variable check_password_hash : string -> string -> bool.

Definition process_password (password pw_hash : string) : bool :=
  check_password_hash pw_hash password.

Definition create_user (st : state) (name password : string)
  : outcome (bool * state) :=
  match scalar (filter_by name (users st)) with
  | MultipleResultsFound => MultipleResultsFound
  | Done None =>
      let pw_hash := generate_password_hash password in
      let new_user := {| username := name; password_hash := pw_hash |} in
      Done (true, {| users := users st ++ [new_user];
                     session_user := session_user st |})
  | Done (Some _) => Done (false, st)
  end.

Definition load_user (st : state) (name : string) : option User :=
  first_row (filter_by name (users st)).

Definition authenticate_user (st : state) (name password : string)
  : bool * state :=
  match load_user st name with
  | Some user =>
      if process_password password (password_hash user)
      then (true, login_user st user)
      else (false, st)
  | None => (false, st)
  end.

End WithWerkzeug.

(** Stand-ins for the two functions of werkzeug, for the examples. *)
Definition tagged_hash (password : string) : string := "plain$" ++ password.
Definition tagged_check (pw_hash password : string) : bool :=
  String.eqb pw_hash (tagged_hash password).

Definition no_users : state := {| users := []; session_user := None |}.

(** A table with two users, nobody logged in. *)
Definition two_users : state :=
  {| users := [{| username := "jbelke"; password_hash := tagged_hash "hunter2" |};
               {| username := "cwolff"; password_hash := tagged_hash "s3cret" |}];
     session_user := None |}.

End Auth.

(** ** The form of an identifier in the specification *)

(** [CVE-\d{4}-\d{4,7}], the whole string: ["CVE-"], four digits, ["-"]
    and four to seven digits. *)
Definition vulnerability_id (s : string) : Prop :=
  exists year number,
    s = "CVE-" ++ year ++ "-" ++ number /\
    String.length year = 4 /\ forall_chars digit year = true /\
    4 <= String.length number <= 7 /\ forall_chars digit number = true.

(** The characters of such a string. *)
Definition id_char (c : ascii) : bool :=
  digit c || upper_letter c || is_char "-" c.

(** * Properties *)

(** ** Strings *)

Lemma length_append (a b : string) :
  String.length (a ++ b) = String.length a + String.length b.
Proof. induction a as [|c a IH]; simpl; [reflexivity | now rewrite IH]. Qed.

Lemma take_append (a b : string) :
  take (String.length (a ++ b) - String.length b) (a ++ b) = a.
Proof.
  rewrite length_append.
  replace (String.length a + String.length b - String.length b)
    with (String.length a) by lia.
  induction a as [|c a IH]; simpl.
  - now destruct b.
  - now rewrite IH.
Qed.

Lemma name_char_not_slash (c : ascii) :
  name_char c = true -> is_char "/" c = false.
Proof.
  unfold is_char. destruct (Ascii.eqb_spec "/"%char c) as [<-|]; [|reflexivity].
  vm_compute. discriminate.
Qed.

Lemma forall_chars_no_slash (s : string) :
  forall_chars name_char s = true -> has_char "/" s = false.
Proof.
  induction s as [|c s IH]; cbn [forall_chars]; [reflexivity|].
  intros [Hc Hs]%andb_true_iff. unfold has_char in *. cbn [exists_char].
  apply name_char_not_slash in Hc. unfold is_char in Hc.
  now rewrite Hc, IH.
Qed.

Lemma exists_not_forall (p : ascii -> bool) (s : string) :
  exists_char (fun c => negb (p c)) s = negb (forall_chars p s).
Proof.
  induction s as [|c s IH]; simpl; [reflexivity|].
  rewrite IH. now destruct (p c).
Qed.

(** ** The matcher *)

(** A greedy repetition takes a whole run of the class when the input
    after the run cannot extend it and the continuation accepts there. *)
Lemma rep_run {R} (cls : ascii -> bool) (k : string -> option R)
      (run rest : string) (r : R) :
  forall lo hi,
  forall_chars cls run = true ->
  lo <= String.length run ->
  match hi with Some h => String.length run <= h | None => True end ->
  head_in cls rest = false ->
  k rest = Some r ->
  rep cls lo hi k (run ++ rest) = Some r.
Proof.
  induction run as [|c run IH]; intros lo hi Hall Hlo Hhi Hrest Hk.
  - simpl in *. assert (lo = 0) by lia. subst lo.
    destruct rest as [|c rest]; simpl; [assumption|].
    simpl in Hrest. now rewrite Hrest.
  - simpl in Hall. apply andb_true_iff in Hall as [Hc Hall].
    simpl. rewrite Hc.
    assert (Hm : may_take hi = true).
    { destruct hi as [[|h]|]; simpl in *; [lia | reflexivity | reflexivity]. }
    rewrite Hm. simpl.
    rewrite (IH (pred lo) (dec hi)); try assumption; try reflexivity.
    + simpl in Hlo. lia.
    + destruct hi as [h|]; simpl in *; [lia | exact I].
Qed.

(** A repetition fails when the continuation fails after every prefix of
    the input made of characters of the class and within the bound. *)
Lemma rep_none {R} (cls : ascii -> bool) (k : string -> option R) (s : string) :
  forall lo hi,
  (forall n, match hi with Some h => n <= h | None => True end ->
             forall_chars cls (take n s) = true -> k (drop n s) = None) ->
  rep cls lo hi k s = None.
Proof.
  induction s as [|c s IH]; intros lo hi H.
  - simpl. destruct lo; [|reflexivity].
    apply (H 0); [destruct hi; [lia | exact I] | reflexivity].
  - assert (Hstop : match lo with O => k (String c s) | S _ => None end = None).
    { destruct lo; [|reflexivity].
      apply (H 0); [destruct hi; [lia | exact I] | reflexivity]. }
    simpl. destruct (cls c && may_take hi) eqn:E; [|exact Hstop].
    apply andb_true_iff in E as [Hc Hm].
    rewrite IH; [exact Hstop|].
    intros n Hb Hn. apply (H (S n)).
    + destruct hi as [[|h]|]; simpl in *; [discriminate | lia | exact I].
    + simpl. now rewrite Hc.
Qed.

(** Where a prefix of name characters of [seg ++ "/" ++ tail] can end, for
    a segment [seg] without [/]: before a character that is not [/], or
    exactly at the end of a segment made of name characters. *)
Lemma name_prefix_of_segment (seg tail : string) :
  has_char "/" seg = false ->
  forall n,
  forall_chars name_char (take n (seg ++ "/" ++ tail)) = true ->
  head_in (is_char "/") (drop n (seg ++ "/" ++ tail)) = false \/
  (drop n (seg ++ "/" ++ tail) = "/" ++ tail /\
   forall_chars name_char seg = true).
Proof.
  induction seg as [|c seg IH]; intros Hseg n Hn.
  - destruct n as [|n]; simpl in *.
    + right. split; reflexivity.
    + discriminate.
  - unfold has_char in Hseg. simpl in Hseg.
    apply orb_false_iff in Hseg as [Hc Hseg].
    destruct n as [|n]; simpl in *.
    + left. exact Hc.
    + apply andb_true_iff in Hn as [Hnc Hn].
      destruct (IH Hseg n Hn) as [H | [H1 H2]].
      * left. exact H.
      * right. split; [exact H1 | now rewrite Hnc].
Qed.

(** The rest of a pattern that starts with the end of a group and [/]
    fails on an input that does not start with [/]. *)
Lemma exec_close_slash (p : regex) (s0 : string) (st : mstate) (s : string) :
  head_in (is_char "/") s = false ->
  exec (Close :: Chr "/" :: p) s0 st s = None.
Proof.
  intros H. destruct s as [|c s]; simpl; [reflexivity|].
  simpl in H. unfold is_char in H. now rewrite H.
Qed.

(** A name group followed by [/] fails on a segment that holds a
    character outside the class. *)
Lemma name_group_rejects (p : regex) (s0 : string) (st : mstate)
      (seg tail : string) lo hi :
  has_char "/" seg = false ->
  forall_chars name_char seg = false ->
  rep name_char lo hi (exec (Close :: Chr "/" :: p) s0 st)
      (seg ++ "/" ++ tail) = None.
Proof.
  intros Hseg Hbad. apply rep_none. intros n _ Hn.
  destruct (name_prefix_of_segment seg tail Hseg n Hn) as [H | [_ H]].
  - now apply exec_close_slash.
  - congruence.
Qed.

(** The equations of [exec]. *)
Lemma exec_rep (cls : ascii -> bool) lo hi (p : regex) s0 st s :
  exec (Rep cls lo hi :: p) s0 st s = rep cls lo hi (exec p s0 st) s.
Proof. reflexivity. Qed.

Lemma exec_open (p : regex) s0 st s :
  exec (Open :: p) s0 st s = exec p s0 (open_group s st) s.
Proof. reflexivity. Qed.

Lemma exec_close (p : regex) s0 st s :
  exec (Close :: p) s0 st s = exec p s0 (close_group s st) s.
Proof. reflexivity. Qed.

Lemma exec_chr (c : ascii) (p : regex) s0 st s :
  exec (Chr c :: p) s0 st (String c s) = exec p s0 st s.
Proof. cbn [exec]. now rewrite Ascii.eqb_refl. Qed.

Lemma exec_lit (w : string) (p : regex) s0 st s :
  exec (lit w ++ p)%list s0 st (w ++ s) = exec p s0 st s.
Proof.
  induction w as [|c w IH]; [reflexivity|].
  cbn [lit app append]. now rewrite exec_chr.
Qed.

Lemma close_open_group (run rest : string) (st : mstate) :
  close_group rest (open_group (run ++ rest) st)
  = {| opened := opened st; closed := run :: closed st |}.
Proof. unfold close_group, open_group. cbn [opened closed]. now rewrite take_append. Qed.

(** A group over a repetition captures a whole run of the class. *)
Lemma exec_group_run (cls : ascii -> bool) lo hi (p : regex) s0 st
      (run rest : string) (r : list string) :
  forall_chars cls run = true ->
  lo <= String.length run ->
  match hi with Some h => String.length run <= h | None => True end ->
  head_in cls rest = false ->
  exec p s0 {| opened := opened st; closed := run :: closed st |} rest = Some r ->
  exec (Open :: Rep cls lo hi :: Close :: p) s0 st (run ++ rest) = Some r.
Proof.
  intros Hall Hlo Hhi Hrest Hk.
  rewrite exec_open, exec_rep.
  apply rep_run; try assumption.
  now rewrite exec_close, close_open_group.
Qed.


(** [github_pattern] on a path whose first or second segment holds a
    character outside [[A-Za-z0-9\-]]. *)
Lemma github_pattern_rejects (owner repo tail : string) :
  has_char "/" owner = false -> has_char "/" repo = false ->
  forall_chars name_char owner = false \/ forall_chars name_char repo = false ->
  re_match github_pattern ("/" ++ owner ++ "/" ++ repo ++ "/" ++ tail) = None.
Proof.
  intros Ho Hr Hbad.
  unfold re_match, github_pattern.
  set (s0 := "/" ++ owner ++ "/" ++ repo ++ "/" ++ tail) at 1.
  cbn [app lit]. rewrite exec_rep.
  apply rep_none. intros n Hb Hn.
  destruct n as [|[|n]]; [| |lia].
  - (* no leading slash taken: the owner group starts at [/] *)
    reflexivity.
  - (* the leading slash taken *)
    change (drop 1 ("/" ++ owner ++ "/" ++ repo ++ "/" ++ tail))
      with (owner ++ "/" ++ repo ++ "/" ++ tail).
    rewrite exec_open, exec_rep.
    destruct (forall_chars name_char owner) eqn:Hown.
    + (* the owner is accepted, the repository is not *)
      destruct Hbad as [Hbad | Hbad]; [discriminate|].
      apply rep_none. intros m _ Hm.
      destruct (name_prefix_of_segment owner _ Ho m Hm) as [H | [H _]].
      * now apply exec_close_slash.
      * rewrite H, exec_close.
        change ("/" ++ repo ++ "/" ++ tail)
          with (String "/" (repo ++ "/" ++ tail)).
        rewrite exec_chr, exec_open, exec_rep.
        now apply name_group_rejects.
    + now apply name_group_rejects.
Qed.

(** ** Link classification *)

Lemma has_key_github (host : string) :
  host = "github.com" \/ host = "www.github.com" ->
  has_key host known_repositories = false.
Proof. intros [-> | ->]; reflexivity. Qed.

Lemma is_git_link_github (pl : ParseResult) :
  netloc pl = "github.com" \/ netloc pl = "www.github.com" ->
  is_git_link pl = Ret false.
Proof.
  intros H. unfold is_git_link. rewrite (has_key_github _ H).
  now destruct (negb (has_key "a" (parse_qs (query pl)))).
Qed.

Lemma is_github_host (pl : ParseResult) :
  netloc pl = "github.com" \/ netloc pl = "www.github.com" ->
  (String.eqb (netloc pl) "github.com" || String.eqb (netloc pl) "www.github.com")
  = true.
Proof. intros [-> | ->]; reflexivity. Qed.

(** A link of a known repository whose query names a commit action but no
    hash: [is_git_link] accepts it and [convert_git_link] fails on
    [query["h"]]. *)
Lemma convert_git_link_without_hash
      (url_for : string -> string -> string -> string -> string -> string)
      (cve_id : string) (pl : ParseResult) :
  has_key (netloc pl) known_repositories = true ->
  has_key "h" (parse_qs (query pl)) = false ->
  convert_git_link url_for cve_id pl = Raise KeyError.
Proof.
  unfold convert_git_link, has_key, first_value. intros Hk Hh.
  destruct (assoc (netloc pl) known_repositories) as [[u n]|]; [|reflexivity].
  now destruct (assoc "h" (parse_qs (query pl))).
Qed.

(** ** Building the record *)

Lemma classify_keeps_link
      (url_for : string -> string -> string -> string -> string -> string)
      (cve_id : string) (link : value) (c : link_class) :
  classify url_for cve_id link = Ret c ->
  (exists converted, c = GitLink link converted) \/ c = NormalLink link.
Proof.
  unfold classify.
  destruct (urlparse link) as [pl|]; cbn [bind]; [|discriminate].
  destruct (is_github_link pl).
  - destruct (convert_github_link url_for cve_id pl); cbn [bind]; [|discriminate].
    intros [= <-]. left. eauto.
  - destruct (is_git_link pl) as [[|]|]; cbn [bind]; [| |discriminate].
    + destruct (convert_git_link url_for cve_id pl); cbn [bind]; [|discriminate].
      intros [= <-]. left. eauto.
    + intros [= <-]. now right.
Qed.

Lemma filter_partition_permutation {A} (f : A -> bool) (l : list A) :
  Permutation l (filter f l ++ filter (fun x => negb (f x)) l)%list.
Proof.
  induction l as [|a l IH]; [constructor|].
  cbn [filter]. destruct (f a); cbn [negb app].
  - now constructor.
  - now apply Permutation_cons_app.
Qed.

(** The loop of [process_cve], from any entry reached so far. *)
Lemma process_links_spec
      (url_for : string -> string -> string -> string -> string -> string)
      (links : list value) :
  forall e e' : entry,
  process_links url_for links e = Ret e' ->
  id e' = id e /\ desc e' = desc e /\
  map fst (git_links e')
  = (map fst (git_links e) ++ filter (routed url_for (id e)) links)%list /\
  normal_links e'
  = (normal_links e
     ++ filter (fun l => negb (routed url_for (id e) l)) links)%list /\
  (Forall (fun oc => classify url_for (id e) (fst oc)
                     = Ret (GitLink (fst oc) (snd oc))) (git_links e) ->
   Forall (fun oc => classify url_for (id e) (fst oc)
                     = Ret (GitLink (fst oc) (snd oc))) (git_links e')).
Proof.
  induction links as [|link links IH]; intros e e' H.
  - cbn in H. injection H as <-. rewrite !app_nil_r. repeat split. tauto.
  - cbn [process_links] in H.
    destruct (classify url_for (id e) link) as [c|] eqn:Hc; cbn [bind] in H;
      [|discriminate].
    apply IH in H. destruct H as (Hid & Hdesc & Hgit & Hnorm & Hconv).
    assert (Hid1 : id (append_link e c) = id e) by now destruct c.
    assert (Hd1 : desc (append_link e c) = desc e) by now destruct c.
    rewrite Hid1 in *. rewrite Hd1 in *.
    assert (Hr : routed url_for (id e) link
                 = match c with GitLink _ _ => true | NormalLink _ => false end)
      by (unfold routed; now rewrite Hc).
    cbn [filter]. rewrite Hr.
    destruct (classify_keeps_link _ _ _ _ Hc) as [[converted ->] | ->];
      cbn [append_link git_links normal_links negb] in *.
    + rewrite map_app in Hgit. cbn [map fst] in Hgit.
      rewrite <- app_assoc in Hgit. cbn [app] in Hgit.
      repeat split; try assumption.
      intros HF. apply Hconv. apply Forall_app. split; [assumption|].
      constructor; [exact Hc | constructor].
    + rewrite <- app_assoc in Hnorm. cbn [app] in Hnorm.
      repeat split; assumption.
Qed.

(** The loop returns when the classification of every link returns. *)
Lemma process_links_returns
      (url_for : string -> string -> string -> string -> string -> string)
      (links : list value) :
  forall e : entry,
  Forall (fun l => exists c, classify url_for (id e) l = Ret c) links ->
  exists e', process_links url_for links e = Ret e'.
Proof.
  induction links as [|link links IH]; intros e H.
  - eexists. reflexivity.
  - inversion H as [|? ? [c Hc] Hrest]; subst.
    cbn [process_links]. rewrite Hc. cbn [bind].
    apply IH. now destruct c.
Qed.

(** [scrape_cve] makes exactly one request, for the NVD page of the id. *)
Lemma scrape_cve_log (requests_get : string -> pyres response)
      (cve_id : string) (log : list string) :
  snd (scrape_cve requests_get cve_id log)
  = (log ++ [("https://services.nvd.nist.gov/rest/json/cve/1.0/"
                ++ cve_id)%string])%list.
Proof.
  unfold scrape_cve, bindM, http_get.
  destruct (requests_get _) as [resp|e]; [|reflexivity].
  destruct (negb (ok resp)); reflexivity.
Qed.

Section CveProperties.

Variable url_for : string -> string -> string -> string -> string -> string.
Variable requests_get : string -> pyres response.

(** C1 (the code departs from it): classification is meant to be total,
    and a link of a known mirror without the key [h] is meant to be kept
    as an opaque link.  On ["https://git.kernel.org/?a=commit"] the key
    [a] is present and names a commit, so [is_git_link] holds, and
    [convert_git_link] raises [KeyError] on the missing key [h]; the
    exception leaves [classify], [process_cve] and [get_cve]. *)
Theorem classify_known_mirror_without_hash_raises (cve_id : string) :
  let url := VStr "https://git.kernel.org/?a=commit" in
  (exists pl, urlparse url = Ret pl /\
     has_key (netloc pl) known_repositories = true /\
     has_key "a" (parse_qs (query pl)) = true /\
     has_key "h" (parse_qs (query pl)) = false /\
     is_git_link pl = Ret true) /\
  classify url_for cve_id url = Raise KeyError /\
  process_cve url_for
    {| raw_id := cve_id; raw_desc := VStr ""; raw_links := [url] |}
  = Raise KeyError.
Proof.
  split; [|split]; try reflexivity.
  eexists. split; [reflexivity|]. repeat split.
Qed.

(** C2 (the code departs from it): the fields of the query of
    ["https://git.kernel.org/?a=commit;h=deadbeef"] are separated by [;],
    at which [parse_qs] does not split: the query has the single key [a],
    with the value ["commit;h=deadbeef"].  That value contains ["commit"],
    so [is_git_link] holds, and [convert_git_link] raises [KeyError] on
    the missing key [h] instead of converting the link with [torvalds],
    [linux] and [deadbeef].  With [&] between the two fields the link is
    converted so. *)
Theorem classify_kernel_mirror_example_raises (cve_id : string) :
  let url := VStr "https://git.kernel.org/?a=commit;h=deadbeef" in
  (exists pl, urlparse url = Ret pl /\
     parse_qs (query pl) = [("a", ["commit;h=deadbeef"])] /\
     is_github_link pl = false /\ is_git_link pl = Ret true /\
     assoc (netloc pl) known_repositories = Some ("torvalds", "linux")) /\
  classify url_for cve_id url = Raise KeyError /\
  classify url_for cve_id (VStr "https://git.kernel.org/?a=commit&h=deadbeef")
  = Ret (GitLink (VStr "https://git.kernel.org/?a=commit&h=deadbeef")
           (url_for "main.info_page" cve_id "torvalds" "linux" "deadbeef")).
Proof.
  split; [|split; reflexivity].
  eexists. split; [reflexivity|]. repeat split.
Qed.


(** C10: a parsed link with host [github.com] or [www.github.com] and path
    [/owner/repo/commit/...] whose owner or repo segment holds a character
    other than an ASCII letter, a digit or a hyphen is not a GitHub link
    for [is_github_link], and is kept as a normal link. *)
Theorem classify_github_other_characters
        (cve_id url : string) (pl : ParseResult) (owner repo tail : string) :
  urlparse (VStr url) = Ret pl ->
  netloc pl = "github.com" \/ netloc pl = "www.github.com" ->
  path pl = "/" ++ owner ++ "/" ++ repo ++ "/commit/" ++ tail ->
  has_char "/" owner = false -> has_char "/" repo = false ->
  exists_char (fun c => negb (name_char c)) owner = true \/
  exists_char (fun c => negb (name_char c)) repo = true ->
  is_github_link pl = false /\
  classify url_for cve_id (VStr url) = Ret (NormalLink (VStr url)).
Proof.
  intros Hparse Hhost Hpath Ho Hr Hbad.
  assert (Hm : re_match github_pattern (path pl) = None).
  { rewrite Hpath.
    apply (github_pattern_rejects owner repo ("commit/" ++ tail) Ho Hr).
    rewrite !exists_not_forall in Hbad.
    destruct Hbad as [H | H]; [left | right]; now apply negb_true_iff. }
  assert (Hg : is_github_link pl = false).
  { unfold is_github_link. rewrite Hm. apply andb_false_r. }
  split; [exact Hg|].
  unfold classify. rewrite Hparse. cbn [bind]. rewrite Hg.
  now rewrite (is_git_link_github _ Hhost).
Qed.

(** C4: when [process_cve] returns an entry, the raw links are partitioned
    between ["git_links"] and ["normal_links"]: the old links of
    ["git_links"] are the routed raw links in input order, ["normal_links"]
    are the other raw links in input order, every converted link is the
    conversion of its own old link, and the two sequences together are a
    rearrangement of the raw links, so that repeated links and links with
    the same conversion are all kept.  It returns whenever the
    classification of every raw link returns. *)
Theorem process_cve_partitions (raw : raw_entry) :
  (Forall (fun l => exists c, classify url_for (raw_id raw) l = Ret c)
          (raw_links raw) ->
   exists e, process_cve url_for raw = Ret e) /\
  (forall e, process_cve url_for raw = Ret e ->
     id e = raw_id raw /\ desc e = raw_desc raw /\
     map fst (git_links e) = filter (routed url_for (raw_id raw)) (raw_links raw) /\
     normal_links e
     = filter (fun l => negb (routed url_for (raw_id raw) l)) (raw_links raw) /\
     Forall (fun oc => classify url_for (raw_id raw) (fst oc)
                       = Ret (GitLink (fst oc) (snd oc))) (git_links e) /\
     Permutation (raw_links raw) (map fst (git_links e) ++ normal_links e)%list /\
     (List.length (git_links e) + List.length (normal_links e)
      = List.length (raw_links raw))%nat).
Proof.
  unfold process_cve. split.
  - intros H. now apply process_links_returns.
  - intros e H. apply process_links_spec in H.
    cbn [id desc git_links normal_links map app] in H.
    destruct H as (Hid & Hdesc & Hgit & Hnorm & Hconv).
    assert (HP : Permutation (raw_links raw)
                   (map fst (git_links e) ++ normal_links e)%list).
    { rewrite Hgit, Hnorm. apply filter_partition_permutation. }
    repeat split; try assumption.
    + apply Hconv. constructor.
    + apply Permutation_length in HP.
      rewrite length_app, length_map in HP. now symmetry.
Qed.

(** An id that [cve_pattern.match] refuses once uppercased makes [get_cve]
    return [None] with the list of requests as it was: no request is
    made, whatever the network would answer. *)
Lemma get_cve_rejects_before_fetch (cve_id : string) (log : list string) :
  is_valid_cve_id (upper cve_id) = false ->
  get_cve url_for requests_get cve_id log = (Ret None, log).
Proof. intros H. unfold get_cve. now rewrite H. Qed.

(** C6 (amended): an id of invalid format, and a valid id for which the
    upstream answers that there is no such CVE, both make [get_cve] return
    [None]: the same result, from which the two cases cannot be told
    apart. *)
Theorem get_cve_invalid_and_absent_alike
        (invalid_id valid_id : string) (resp : response)
        (log1 log2 : list string) :
  is_valid_cve_id (upper invalid_id) = false ->
  is_valid_cve_id (upper valid_id) = true ->
  requests_get ("https://services.nvd.nist.gov/rest/json/cve/1.0/"
                ++ upper valid_id) = Ret resp ->
  ok resp = false ->
  fst (get_cve url_for requests_get invalid_id log1) = Ret None /\
  fst (get_cve url_for requests_get valid_id log2) = Ret None.
Proof.
  intros Hinv Hval Hget Hok. unfold get_cve. rewrite Hinv, Hval.
  split; [reflexivity|].
  unfold scrape_cve, http_get, bindM. rewrite Hget, Hok. reflexivity.
Qed.

End CveProperties.

(** ** Instances of the properties above *)


Lemma classify_github_other_characters_witness :
  classify info_page_url "CVE-2021-12345"
    (VStr "https://github.com/foo.bar/baz_qux/commit/abcdef1")
  = Ret (NormalLink (VStr "https://github.com/foo.bar/baz_qux/commit/abcdef1")).
Proof.
  apply (classify_github_other_characters info_page_url "CVE-2021-12345"
           "https://github.com/foo.bar/baz_qux/commit/abcdef1"
           {| scheme := "https"; netloc := "github.com";
              path := "/foo.bar/baz_qux/commit/abcdef1"; params := "";
              query := ""; fragment := "" |}
           "foo.bar" "baz_qux" "abcdef1").
  - reflexivity.
  - left. reflexivity.
  - reflexivity.
  - reflexivity.
  - reflexivity.
  - left. reflexivity.
Defined.


(** A record with a repeated normal link and two different links of the
    same commit. *)
Lemma process_cve_partitions_witness :
  let raw :=
    {| raw_id := "CVE-2021-12345"; raw_desc := VStr "";
       raw_links :=
         [VStr "https://github.com/torvalds/linux/commit/deadbeef";
          VStr "https://example.com/patch.diff";
          VStr "https://git.kernel.org/?a=commit&h=deadbeef";
          VStr "https://example.com/patch.diff"] |} in
  exists e,
    process_cve info_page_url raw = Ret e /\
    git_links e
    = [(VStr "https://github.com/torvalds/linux/commit/deadbeef",
        "/cve/CVE-2021-12345/info/torvalds/linux/deadbeef");
       (VStr "https://git.kernel.org/?a=commit&h=deadbeef",
        "/cve/CVE-2021-12345/info/torvalds/linux/deadbeef")] /\
    normal_links e
    = [VStr "https://example.com/patch.diff";
       VStr "https://example.com/patch.diff"] /\
    Permutation (raw_links raw) (map fst (git_links e) ++ normal_links e)%list.
Proof.
  intros raw.
  destruct (process_cve_partitions info_page_url raw) as [Hret Hpart].
  destruct Hret as [e He].
  { repeat constructor; eexists; reflexivity. }
  exists e. split; [exact He|].
  destruct (Hpart e He) as (_ & _ & _ & _ & _ & HP & _).
  cbv in He. injection He as <-.
  repeat split. exact HP.
Defined.

Lemma get_cve_rejects_before_fetch_witness :
  get_cve info_page_url no_such_cve "CVE-21-12345" [] = (Ret None, []).
Proof.
  apply (get_cve_rejects_before_fetch info_page_url no_such_cve
           "CVE-21-12345" []).
  reflexivity.
Defined.

Lemma get_cve_invalid_and_absent_alike_witness :
  fst (get_cve info_page_url no_such_cve "CVE-21-12345" []) = Ret None /\
  fst (get_cve info_page_url no_such_cve "cve-2021-12345" []) = Ret None.
Proof.
  apply (get_cve_invalid_and_absent_alike info_page_url no_such_cve
           "CVE-21-12345" "cve-2021-12345"
           {| ok := false; json := Raise ValueError |} [] []);
    reflexivity.
Defined.

(** C6 as stated fails: no reading of the result of [get_cve] tells the
    id of invalid format ["CVE-21-12345"] from the valid id
    ["CVE-2021-12345"] that the upstream does not know. *)
Lemma get_cve_failure_kinds_counterexample :
  is_valid_cve_id (upper "CVE-21-12345") = false /\
  is_valid_cve_id (upper "CVE-2021-12345") = true /\
  ~ exists kind_of : pyres (option entry) -> failure_kind,
      kind_of (fst (get_cve info_page_url no_such_cve "CVE-21-12345" []))
      = InvalidIdentifier /\
      kind_of (fst (get_cve info_page_url no_such_cve "CVE-2021-12345" []))
      = NotFound.
Proof.
  split; [reflexivity|]. split; [reflexivity|].
  intros [kind_of [H1 H2]].
  change (fst (get_cve info_page_url no_such_cve "CVE-21-12345" []))
    with (@Ret (option entry) None) in H1.
  change (fst (get_cve info_page_url no_such_cve "CVE-2021-12345" []))
    with (@Ret (option entry) None) in H2.
  congruence.
Qed.

(** * Further properties of the code *)

(** ** What the patterns accept *)

(** A repetition that succeeds has taken a run of the class within its
    bounds, after which the continuation succeeded. *)
Lemma rep_some {R} (cls : ascii -> bool) (k : string -> option R) (s : string) :
  forall lo hi r,
  rep cls lo hi k s = Some r ->
  exists run rest,
    s = run ++ rest /\ forall_chars cls run = true /\
    lo <= String.length run /\
    match hi with Some h => String.length run <= h | None => True end /\
    k rest = Some r.
Proof.
  induction s as [|c s IH]; intros lo hi r H.
  - cbn [rep] in H. destruct lo; [|discriminate].
    exists "", "". repeat split; try assumption; try apply Nat.le_0_l.
    destruct hi; [apply Nat.le_0_l | exact I].
  - cbn [rep] in H.
    assert (Hstop : match lo with O => k (String c s) | S _ => None end = Some r ->
                    exists run rest,
                      String c s = run ++ rest /\ forall_chars cls run = true /\
                      lo <= String.length run /\
                      match hi with Some h => String.length run <= h | None => True end /\
                      k rest = Some r).
    { intros Hs. destruct lo; [|discriminate].
      exists "", (String c s).
      repeat split; try assumption; try apply Nat.le_0_l.
      destruct hi; [apply Nat.le_0_l | exact I]. }
    destruct (cls c && may_take hi) eqn:E; [|now apply Hstop].
    apply andb_true_iff in E as [Hc Hm].
    destruct (rep cls (pred lo) (dec hi) k s) as [r'|] eqn:Hrec;
      [|now apply Hstop].
    injection H as ->.
    destruct (IH _ _ _ Hrec) as (run & rest & -> & Hall & Hlo & Hhi & Hk).
    exists (String c run), rest. cbn [append forall_chars String.length].
    rewrite Hc, Hall. repeat split; try assumption.
    + lia.
    + destruct hi as [[|h]|]; cbn in *; [discriminate | lia | exact I].
Qed.

Lemma exec_chr_inv (c : ascii) (p : regex) s0 st s r :
  exec (Chr c :: p) s0 st s = Some r ->
  exists s', s = String c s' /\ exec p s0 st s' = Some r.
Proof.
  cbn [exec]. destruct s as [|c' s']; [discriminate|].
  destruct (Ascii.eqb_spec c c') as [<-|]; [|discriminate].
  intros H. now exists s'.
Qed.

Lemma exec_lit_inv (w : string) (p : regex) s0 st s r :
  exec (lit w ++ p)%list s0 st s = Some r ->
  exists s', s = w ++ s' /\ exec p s0 st s' = Some r.
Proof.
  revert s. induction w as [|c w IH]; intros s H.
  - now exists s.
  - cbn [lit app] in H. apply exec_chr_inv in H as (s1 & -> & H).
    apply IH in H as (s' & -> & H). now exists s'.
Qed.

Lemma exec_group_inv (cls : ascii -> bool) lo hi (p : regex) s0 st s r :
  exec (Open :: Rep cls lo hi :: Close :: p) s0 st s = Some r ->
  exists run rest,
    s = run ++ rest /\ forall_chars cls run = true /\
    lo <= String.length run /\
    match hi with Some h => String.length run <= h | None => True end /\
    exec p s0 {| opened := opened st; closed := run :: closed st |} rest = Some r.
Proof.
  rewrite exec_open, exec_rep. intros H.
  apply rep_some in H as (run & rest & -> & Hall & Hlo & Hhi & Hk).
  rewrite exec_close, close_open_group in Hk.
  now exists run, rest.
Qed.

Lemma at_end_inv (s : string) :
  at_end s = true -> s = "" \/ s = newline.
Proof.
  destruct s as [|c [|c' s]]; cbn [at_end]; try discriminate.
  - now left.
  - intros H. apply Ascii.eqb_eq in H. subst c. now right.
Qed.

(** At most one [/]. *)
Lemma slash_run (run : string) :
  forall_chars (is_char "/") run = true -> String.length run <= 1 ->
  run = "" \/ run = "/".
Proof.
  destruct run as [|c [|c' run]]; cbn [forall_chars String.length].
  - now left.
  - intros H _. apply andb_true_iff in H as [H _].
    apply Ascii.eqb_eq in H. subst c. now right.
  - lia.
Qed.

Lemma length_positive (s : string) : 1 <= String.length s -> s <> "".
Proof. destruct s; cbn; [lia | discriminate]. Qed.

Lemma digit_not_dash (c : ascii) : digit c = true -> is_char "-" c = false.
Proof.
  unfold is_char. destruct (Ascii.eqb_spec "-"%char c) as [<-|]; [|reflexivity].
  vm_compute. discriminate.
Qed.

(** The strings that [cve_pattern] matches have the shape of a CVE id. *)
Lemma cve_pattern_shape (s : string) :
  is_valid_cve_id s = true -> cve_shape s.
Proof.
  unfold is_valid_cve_id, re_match, cve_pattern, cve_shape. cbn [app].
  destruct (exec _ s _ s) as [m|] eqn:H; [intros _|discriminate].
  cbn [exec] in H. rewrite Nat.eqb_refl in H.
  change (exec (lit "CVE-" ++ Rep digit 4 (Some 4)
                  :: (lit "-" ++ [Rep digit 4 (Some 7); Eol]))%list
               s {| opened := []; closed := [] |} s = Some m) in H.
  apply exec_lit_inv in H as (s1 & Hs & H).
  rewrite exec_rep in H.
  apply rep_some in H as (year & s2 & -> & Hy & Hylo & Hyhi & H).
  apply exec_lit_inv in H as (s3 & -> & H).
  rewrite exec_rep in H.
  apply rep_some in H as (number & nl & -> & Hn & Hnlo & Hnhi & H).
  cbn [exec] in H. destruct (at_end nl) eqn:Hend; [|discriminate].
  exists year, number, nl. repeat split; try assumption.
  + lia.
  + now apply at_end_inv.
Qed.

(** [cve_pattern] matches every string of the shape of a CVE id. *)
Lemma cve_shape_matches (s : string) :
  cve_shape s -> is_valid_cve_id s = true.
Proof.
  unfold is_valid_cve_id, re_match, cve_pattern, cve_shape. cbn [app].
  intros (year & number & nl & -> & Hylen & Hy & Hnlen & Hn & Hnl).
  cbn [exec]. rewrite Nat.eqb_refl.
  change (match exec (lit "CVE-" ++ Rep digit 4 (Some 4)
                        :: (lit "-" ++ [Rep digit 4 (Some 7); Eol]))%list
                     ("CVE-" ++ year ++ "-" ++ number ++ nl)
                     {| opened := []; closed := [] |}
                     ("CVE-" ++ year ++ "-" ++ number ++ nl)
          with Some _ => true | None => false end = true).
  rewrite exec_lit, exec_rep.
  erewrite rep_run; [reflexivity | assumption | lia | lia | reflexivity |].
  rewrite exec_lit, exec_rep.
  erewrite rep_run; [reflexivity | assumption | lia | lia | |].
  + destruct Hnl; subst nl; reflexivity.
  + destruct Hnl; subst nl; reflexivity.
Qed.

(** X1: [is_valid_cve_id] accepts exactly the strings made of ["CVE-"],
    four digits, ["-"] and four to seven digits, possibly followed by one
    newline. *)
Theorem is_valid_cve_id_iff (s : string) :
  is_valid_cve_id s = true <-> cve_shape s.
Proof.
  split.
  - apply cve_pattern_shape.
  - apply cve_shape_matches.
Qed.

Lemma is_valid_cve_id_iff_witness :
  is_valid_cve_id "CVE-2021-12345" = true /\ cve_shape "CVE-2021-12345".
Proof.
  split; [reflexivity|].
  apply (proj1 (is_valid_cve_id_iff "CVE-2021-12345")). reflexivity.
Defined.

Lemma hash_char_not_slash (c : ascii) :
  hash_char c = true -> is_char "/" c = false.
Proof.
  unfold is_char. destruct (Ascii.eqb_spec "/"%char c) as [<-|]; [|reflexivity].
  vm_compute. discriminate.
Qed.

(** [github_pattern] matches exactly the paths of [github_shape], and its
    groups are the owner, the repository and the hash. *)
Lemma github_pattern_match_iff (p : string) (m : list string) :
  re_match github_pattern p = Some m <->
  exists owner repo hash,
    m = [owner; repo; hash] /\ github_shape p owner repo hash.
Proof.
  unfold re_match, github_pattern, github_shape. cbn [app]. split.
  - intros H. rewrite exec_rep in H.
    apply rep_some in H as (lead & s1 & Hp & Hlead & _ & Hlead1 & H).
    apply exec_group_inv in H as (owner & s2 & -> & Hown & Ho1 & _ & H).
    apply exec_lit_inv in H as (s3 & -> & H). cbn [app] in H.
    apply exec_group_inv in H as (repo & s4 & -> & Hrepo & Hr1 & _ & H).
    apply exec_lit_inv in H as (s5 & -> & H). cbn [app] in H.
    apply exec_group_inv in H as (hash & s6 & -> & Hhash & Hh5 & Hh40 & H).
    rewrite exec_rep in H.
    apply rep_some in H as (slash & nl & -> & Hslash & _ & Hslash1 & H).
    cbn [exec opened closed rev app] in H.
    destruct (at_end nl) eqn:Hend; [|discriminate].
    injection H as <-.
    exists owner, repo, hash. split; [reflexivity|].
    exists lead, slash, nl. repeat split; try assumption.
    + now apply slash_run.
    + now apply length_positive.
    + now apply length_positive.
    + now apply slash_run.
    + now apply at_end_inv.
  - intros (owner & repo & hash & -> & lead & slash & nl & -> & Hlead & Ho & Hown
            & Hr & Hrepo & Hlen & Hhash & Hslash & Hnl).
    set (s0 := lead ++ owner ++ "/" ++ repo ++ "/commit/" ++ hash ++ slash ++ nl) at 1.
    rewrite exec_rep.
    apply rep_run;
      [destruct Hlead; subst lead; reflexivity
      | apply Nat.le_0_l
      | destruct Hlead; subst lead; cbn; lia | |].
    { destruct owner as [|c owner]; [congruence|].
      cbn [forall_chars] in Hown. apply andb_true_iff in Hown as [Hc _].
      now apply name_char_not_slash. }
    apply exec_group_run;
      [assumption | destruct owner; [congruence | cbn; lia]
      | exact I | reflexivity |].
    rewrite exec_lit. cbn [app].
    apply exec_group_run;
      [assumption | destruct repo; [congruence | cbn; lia]
      | exact I | reflexivity |].
    rewrite exec_lit. cbn [app].
    apply exec_group_run; [assumption | lia | lia | |].
    + destruct Hslash; subst slash; destruct Hnl; subst nl; reflexivity.
    + destruct Hslash; subst slash; destruct Hnl; subst nl; reflexivity.
Qed.

Section ShapeProperties.

Variable url_for : string -> string -> string -> string -> string -> string.

(** X2: the GitHub rule holds exactly for the hosts [github.com] and
    [www.github.com] with a path of [github_shape]; the link is then
    converted with the owner, the repository and the hash of the path, and
    the conversion does not raise. *)
Theorem is_github_link_iff (cve_id : string) (pl : ParseResult) :
  is_github_link pl = true <->
  (netloc pl = "github.com" \/ netloc pl = "www.github.com") /\
  exists owner repo hash,
    github_shape (path pl) owner repo hash /\
    convert_github_link url_for cve_id pl
    = Ret (url_for "main.info_page" cve_id owner repo hash).
Proof.
  unfold is_github_link, convert_github_link. split.
  - intros [Hhost Hm]%andb_true_iff.
    destruct (re_match github_pattern (path pl)) as [m|] eqn:E; [|discriminate].
    apply github_pattern_match_iff in E as (owner & repo & hash & -> & Hs).
    split.
    + apply orb_true_iff in Hhost as [H | H]; apply String.eqb_eq in H; tauto.
    + now exists owner, repo, hash.
  - intros [Hhost (owner & repo & hash & Hs & _)].
    rewrite (is_github_host _ Hhost).
    assert (E : re_match github_pattern (path pl) = Some [owner; repo; hash]).
    { apply github_pattern_match_iff. now exists owner, repo, hash. }
    now rewrite E.
Qed.

End ShapeProperties.

Lemma is_github_link_iff_witness :
  let pl := {| scheme := "https"; netloc := "www.github.com";
               path := "/torvalds/linux/commit/deadbeef/"; params := "";
               query := ""; fragment := "" |} in
  exists owner repo hash,
    github_shape (path pl) owner repo hash /\
    convert_github_link info_page_url "CVE-2021-12345" pl
    = Ret (info_page_url "main.info_page" "CVE-2021-12345" owner repo hash).
Proof.
  intros pl.
  apply (proj1 (is_github_link_iff info_page_url "CVE-2021-12345" pl)).
  reflexivity.
Defined.

(** ** Which links are converted, and which make the classification fail *)

Lemma add_value_nonempty (name v : string) (d : list (string * list string)) :
  Forall (fun kv => snd kv <> []) d ->
  Forall (fun kv => snd kv <> []) (add_value name v d).
Proof.
  induction d as [|[n vs] d IH]; intros H; cbn [add_value].
  - repeat constructor. discriminate.
  - inversion H as [|? ? Hvs Hd]; subst.
    destruct (String.eqb name n).
    + constructor; [|assumption]. cbn. now destruct vs.
    + constructor; [assumption | now apply IH].
Qed.

(** [parse_qs] never binds a name to an empty list of values. *)
Lemma parse_qs_nonempty (qs : string) :
  Forall (fun kv => snd kv <> []) (parse_qs qs).
Proof.
  unfold parse_qs.
  assert (G : forall l d, Forall (fun kv : string * list string => snd kv <> []) d ->
                          Forall (fun kv => snd kv <> [])
                                 (fold_left (fun d nv => add_value (fst nv) (snd nv) d) l d)).
  { induction l as [|nv l IH]; intros d Hd; [assumption|].
    cbn [fold_left]. apply IH. now apply add_value_nonempty. }
  apply G. constructor.
Qed.

Lemma assoc_in {A} (k : string) (d : list (string * A)) (v : A) :
  assoc k d = Some v -> In (k, v) d.
Proof.
  induction d as [|[k' v'] d IH]; cbn [assoc]; [discriminate|].
  destruct (String.eqb_spec k k') as [<-|].
  - intros [= <-]. now left.
  - intros H. right. now apply IH.
Qed.

(** [query[key][0]] is defined for every key of a parsed query. *)
Lemma first_value_of_key (qs key : string) :
  first_value (parse_qs qs) key
  = match assoc key (parse_qs qs) with
    | Some (v :: _) => Ret v
    | _ => Raise KeyError
    end /\
  (has_key key (parse_qs qs) = true ->
   exists v, first_value (parse_qs qs) key = Ret v).
Proof.
  unfold first_value, has_key.
  destruct (assoc key (parse_qs qs)) as [[|v vs]|] eqn:E.
  - apply assoc_in in E.
    pose proof (parse_qs_nonempty qs) as H.
    rewrite Forall_forall in H. apply H in E. now cbn in E.
  - split; [reflexivity|]. intros _. now exists v.
  - split; [reflexivity | discriminate].
Qed.

(** [is_git_link] does not raise, and holds exactly when the query has a
    key [a], the host is a known repository and the first value of [a]
    contains ["commit"]. *)
Lemma is_git_link_value (pl : ParseResult) :
  is_git_link pl
  = Ret (has_key "a" (parse_qs (query pl)) &&
         has_key (netloc pl) known_repositories &&
         match first_value (parse_qs (query pl)) "a" with
         | Ret a => contains "commit" a
         | Raise _ => false
         end).
Proof.
  unfold is_git_link.
  destruct (has_key "a" (parse_qs (query pl))) eqn:Ha; cbn [negb andb];
    [|reflexivity].
  destruct (has_key (netloc pl) known_repositories); cbn [andb]; [|reflexivity].
  destruct (proj2 (first_value_of_key (query pl) "a") Ha) as [a ->].
  reflexivity.
Qed.


Section ClassificationProperties.

Variable url_for : string -> string -> string -> string -> string -> string.


(** X4: for a link that [urlparse] accepts, the classification raises in
    one case only, and then with [KeyError]: the link is not a GitHub
    link, it is a git link for [is_git_link], and its query has no key
    [h]. *)
Theorem classify_raises_iff
        (cve_id : string) (link : value) (pl : ParseResult) (e : exn) :
  urlparse link = Ret pl ->
  (classify url_for cve_id link = Raise e <->
   e = KeyError /\ is_github_link pl = false /\ is_git_link pl = Ret true /\
   has_key "h" (parse_qs (query pl)) = false).
Proof.
  intros Hparse. unfold classify. rewrite Hparse. cbn [bind].
  destruct (is_github_link pl) eqn:G.
  - split; [|intros (_ & ? & _); discriminate].
    unfold convert_github_link. unfold is_github_link in G.
    apply andb_true_iff in G as [_ G].
    destruct (re_match github_pattern (path pl)); [|discriminate].
    cbn [bind]. discriminate.
  - rewrite is_git_link_value.
    destruct (has_key "a" _ && has_key (netloc pl) _ && _) eqn:B; cbn [bind];
      [|split; [discriminate | intros (_ & _ & ? & _); discriminate]].
    apply andb_true_iff in B as [[_ Hk]%andb_true_iff _].
    unfold convert_git_link, has_key in *.
    destruct (assoc (netloc pl) known_repositories) as [[u n]|]; [|discriminate].
    rewrite (proj1 (first_value_of_key (query pl) "h")).
    destruct (assoc "h" (parse_qs (query pl))) as [[|v vs]|] eqn:Hh; cbn [bind].
    + apply assoc_in in Hh. pose proof (parse_qs_nonempty (query pl)) as H.
      rewrite Forall_forall in H. apply H in Hh. now cbn in Hh.
    + split; [discriminate | intros (_ & _ & _ & ?); discriminate].
    + split; [intros [= <-]; repeat split | intros (-> & _); reflexivity].
Qed.

(** X5: which of the two lists a link goes to depends on the link alone,
    not on the CVE id nor on the routing function. *)
Theorem routed_independent
        (url_for' : string -> string -> string -> string -> string -> string)
        (cve_id cve_id' : string) (link : value) :
  routed url_for cve_id link = routed url_for' cve_id' link /\
  (forall c, classify url_for cve_id link = Ret (NormalLink c) ->
             classify url_for' cve_id' link = Ret (NormalLink c)) /\
  (forall e, classify url_for cve_id link = Raise e ->
             classify url_for' cve_id' link = Raise e).
Proof.
  unfold routed, classify.
  destruct (urlparse link) as [pl|e0]; cbn [bind];
    [|repeat split; intros; congruence].
  destruct (is_github_link pl).
  - unfold convert_github_link.
    destruct (re_match github_pattern (path pl)); cbn [bind];
      repeat split; intros; congruence.
  - destruct (is_git_link pl) as [[|]|e0]; cbn [bind];
      [| repeat split; intros; congruence | repeat split; intros; congruence].
    unfold convert_git_link.
    destruct (assoc (netloc pl) known_repositories) as [[u n]|]; cbn [bind];
      [|repeat split; intros; congruence].
    destruct (first_value (parse_qs (query pl)) "h"); cbn [bind];
      repeat split; intros; congruence.
Qed.

End ClassificationProperties.


Lemma classify_raises_iff_witness :
  classify info_page_url "CVE-2014-0160"
    (VStr "http://git.openssl.org/gitweb/?p=openssl.git&a=commit")
  = Raise KeyError.
Proof.
  apply (proj2 (classify_raises_iff info_page_url "CVE-2014-0160"
                  (VStr "http://git.openssl.org/gitweb/?p=openssl.git&a=commit")
                  {| scheme := "http"; netloc := "git.openssl.org";
                     path := "/gitweb/"; params := "";
                     query := "p=openssl.git&a=commit"; fragment := "" |}
                  KeyError eq_refl)).
  repeat split.
Defined.

Lemma routed_independent_witness :
  classify (fun _ _ _ _ _ => "") "" (VStr "https://example.com/patch.diff")
  = Ret (NormalLink (VStr "https://example.com/patch.diff")).
Proof.
  apply (proj1 (proj2 (routed_independent info_page_url (fun _ _ _ _ _ => "")
                         "CVE-2014-0160" ""
                         (VStr "https://example.com/patch.diff")))).
  reflexivity.
Defined.

(** ** Building the record: failures and composition *)

Lemma append_link_id (e : entry) (c : link_class) :
  id (append_link e c) = id e.
Proof. now destruct c. Qed.

(** The loop of [process_cve] classifies every link with the id of the
    entry, then appends the results in order. *)
Lemma process_links_mapM
      (url_for : string -> string -> string -> string -> string -> string)
      (links : list value) :
  forall e : entry,
  process_links url_for links e
  = (cs <- mapM (classify url_for (id e)) links ;;
     Ret (fold_left append_link cs e)).
Proof.
  induction links as [|link links IH]; intros e; [reflexivity|].
  cbn [process_links mapM].
  destruct (classify url_for (id e) link) as [c|x]; cbn [bind]; [|reflexivity].
  rewrite IH, append_link_id.
  now destruct (mapM (classify url_for (id e)) links).
Qed.

Lemma fold_append_link (cs : list link_class) :
  forall e : entry,
  fold_left append_link cs e
  = {| id := id e; desc := desc e;
       git_links := (git_links e ++ flat_map git_of cs)%list;
       normal_links := (normal_links e ++ flat_map normal_of cs)%list |}.
Proof.
  induction cs as [|c cs IH]; intros e.
  - cbn. rewrite !app_nil_r. now destruct e.
  - cbn [fold_left flat_map]. rewrite IH.
    destruct c; cbn [append_link id desc git_links normal_links git_of normal_of app];
      now rewrite <- ?app_assoc.
Qed.

Lemma mapM_app {A B} (f : A -> pyres B) (l1 l2 : list A) :
  mapM f (l1 ++ l2)%list
  = (b1 <- mapM f l1 ;; b2 <- mapM f l2 ;; Ret (b1 ++ b2)%list).
Proof.
  induction l1 as [|a l1 IH]; cbn [app mapM bind].
  - now destruct (mapM f l2).
  - destruct (f a); cbn [bind]; [|reflexivity]. rewrite IH.
    destruct (mapM f l1); cbn [bind]; [|reflexivity].
    now destruct (mapM f l2).
Qed.

(** [list(map(f, l))] raises exactly the exception of the first item on
    which [f] raises. *)
Lemma mapM_raises_iff {A B} (f : A -> pyres B) (l : list A) (e : exn) :
  mapM f l = Raise e <->
  exists l1 x l2,
    l = (l1 ++ x :: l2)%list /\
    Forall (fun y => exists b, f y = Ret b) l1 /\ f x = Raise e.
Proof.
  induction l as [|a l IH]; cbn [mapM].
  - split; [discriminate|]. intros (l1 & x & l2 & H & _). now destruct l1.
  - destruct (f a) as [b|e0] eqn:Ha; cbn [bind].
    + split.
      * intros H.
        assert (Hl : mapM f l = Raise e) by now destruct (mapM f l).
        apply IH in Hl as (l1 & x & l2 & -> & HF & Hx).
        exists (a :: l1), x, l2. repeat split; [|assumption].
        constructor; [eauto | assumption].
      * intros (l1 & x & l2 & H & HF & Hx).
        destruct l1 as [|a' l1]; cbn [app] in H; injection H as <- ->.
        { congruence. }
        inversion HF; subst.
        assert (Hl : mapM f (l1 ++ x :: l2)%list = Raise e)
          by (apply IH; eauto 6).
        now rewrite Hl.
    + split.
      * intros [= <-]. exists [], a, l. repeat split; [constructor | assumption].
      * intros (l1 & x & l2 & H & HF & Hx).
        destruct l1 as [|a' l1]; cbn [app] in H; injection H as <- ->.
        { congruence. }
        inversion HF as [|? ? [b Hb] ?]; subst. congruence.
Qed.

Section RecordProperties.

Variable url_for : string -> string -> string -> string -> string -> string.
Variable requests_get : string -> pyres response.

(** X6: [process_cve] raises exactly when the classification of some raw
    link raises, and then with the exception of the first such link: no
    entry is returned, whatever the other links are. *)
Theorem process_cve_raises_iff (raw : raw_entry) (e : exn) :
  process_cve url_for raw = Raise e <->
  exists before link after,
    raw_links raw = (before ++ link :: after)%list /\
    Forall (fun l => exists c, classify url_for (raw_id raw) l = Ret c) before /\
    classify url_for (raw_id raw) link = Raise e.
Proof.
  unfold process_cve. rewrite process_links_mapM. cbn [id].
  rewrite <- mapM_raises_iff.
  destruct (mapM (classify url_for (raw_id raw)) (raw_links raw)); cbn [bind].
  - split; discriminate.
  - split; intros [= ->]; reflexivity.
Qed.

(** X7: processing the concatenation of two lists of links gives the
    concatenation of the two results, list by list. *)
Theorem process_cve_app
        (cve_id : string) (description : value) (links1 links2 : list value)
        (e1 e2 : entry) :
  process_cve url_for
    {| raw_id := cve_id; raw_desc := description; raw_links := links1 |} = Ret e1 ->
  process_cve url_for
    {| raw_id := cve_id; raw_desc := description; raw_links := links2 |} = Ret e2 ->
  process_cve url_for
    {| raw_id := cve_id; raw_desc := description;
       raw_links := (links1 ++ links2)%list |}
  = Ret {| id := cve_id; desc := description;
           git_links := (git_links e1 ++ git_links e2)%list;
           normal_links := (normal_links e1 ++ normal_links e2)%list |}.
Proof.
  unfold process_cve. rewrite !process_links_mapM.
  cbn [id raw_id raw_desc raw_links]. rewrite mapM_app.
  destruct (mapM (classify url_for cve_id) links1) as [cs1|]; cbn [bind];
    [|discriminate].
  destruct (mapM (classify url_for cve_id) links2) as [cs2|]; cbn [bind];
    [|discriminate].
  rewrite !fold_append_link. cbn [id desc git_links normal_links app].
  intros [= <-] [= <-]. cbn [git_links normal_links].
  now rewrite !flat_map_app.
Qed.

End RecordProperties.

Lemma process_cve_raises_iff_witness :
  process_cve info_page_url
    {| raw_id := "CVE-2014-0160"; raw_desc := VStr "";
       raw_links := [VStr "https://example.com/advisory";
                     VStr "http://git.openssl.org/gitweb/?a=commit";
                     VStr "https://github.com/openssl/openssl/commit/96db902"] |}
  = Raise KeyError.
Proof.
  apply (proj2 (process_cve_raises_iff info_page_url _ KeyError)).
  exists [VStr "https://example.com/advisory"],
         (VStr "http://git.openssl.org/gitweb/?a=commit"),
         [VStr "https://github.com/openssl/openssl/commit/96db902"].
  split; [reflexivity|]. split; [|reflexivity].
  repeat constructor. eexists. reflexivity.
Defined.

Lemma process_cve_app_witness :
  process_cve info_page_url
    {| raw_id := "CVE-2014-0160"; raw_desc := VStr "";
       raw_links := ([VStr "https://example.com/advisory"]
                     ++ [VStr "https://github.com/openssl/openssl/commit/96db902"])%list |}
  = Ret {| id := "CVE-2014-0160"; desc := VStr "";
           git_links :=
             ([] ++ [(VStr "https://github.com/openssl/openssl/commit/96db902",
                      "/cve/CVE-2014-0160/info/openssl/openssl/96db902")])%list;
           normal_links := ([VStr "https://example.com/advisory"] ++ [])%list |}.
Proof.
  apply (process_cve_app info_page_url "CVE-2014-0160" (VStr "")
           [VStr "https://example.com/advisory"]
           [VStr "https://github.com/openssl/openssl/commit/96db902"]
           {| id := "CVE-2014-0160"; desc := VStr ""; git_links := [];
              normal_links := [VStr "https://example.com/advisory"] |}
           {| id := "CVE-2014-0160"; desc := VStr "";
              git_links :=
                [(VStr "https://github.com/openssl/openssl/commit/96db902",
                  "/cve/CVE-2014-0160/info/openssl/openssl/96db902")];
              normal_links := [] |});
    reflexivity.
Defined.

(** ** Fetching the metadata *)

Lemma upper_char_idempotent (c : ascii) :
  upper_char (upper_char c) = upper_char c.
Proof.
  destruct c as [[] [] [] [] [] [] [] []]; vm_compute; reflexivity.
Qed.

Lemma upper_idempotent (s : string) : upper (upper s) = upper s.
Proof.
  unfold upper. induction s as [|c s IH]; cbn [map_string]; [reflexivity|].
  now rewrite upper_char_idempotent, IH.
Qed.

Lemma upper_append (a b : string) : upper (a ++ b) = upper a ++ upper b.
Proof.
  unfold upper. induction a as [|c a IH]; cbn [append map_string];
    [reflexivity | now rewrite IH].
Qed.

Lemma upper_digits (s : string) :
  forall_chars digit s = true -> upper s = s.
Proof.
  unfold upper. induction s as [|c s IH]; cbn [forall_chars map_string];
    [reflexivity|].
  intros [Hc Hs]%andb_true_iff. rewrite (IH Hs). f_equal.
  revert Hc. destruct c as [[] [] [] [] [] [] [] []]; vm_compute;
    (reflexivity || discriminate).
Qed.

Lemma urls_of_references (links : list value) :
  mapM (fun reference => getitem reference "url")
       (map (fun u => VDict [("url", u)]) links)
  = Ret links.
Proof.
  induction links as [|u links IH]; [reflexivity|].
  cbn [map mapM]. rewrite IH. reflexivity.
Qed.

Section FetchProperties.

Variable url_for : string -> string -> string -> string -> string -> string.
Variable requests_get : string -> pyres response.

(** [scrape_cve] on a body of the shape of [nvd_body]. *)
Lemma scrape_cve_body
        (cve_id : string) (resp : response) (description : value)
        (links : list value) (log : list string) :
  requests_get (nvd_url cve_id) = Ret resp ->
  ok resp = true ->
  json resp = Ret (nvd_body description links) ->
  scrape_cve requests_get cve_id log
  = (Ret (Some {| raw_id := cve_id; raw_desc := description;
                  raw_links := links |}),
     (log ++ [nvd_url cve_id])%list).
Proof.
  intros Hget Hok Hjson.
  unfold scrape_cve, http_get, bindM. fold (nvd_url cve_id).
  rewrite Hget, Hok. cbn [negb]. unfold lift. rewrite Hjson.
  unfold nvd_body.
  cbn [bind getitem assoc String.eqb Ascii.eqb Bool.eqb first iterate].
  rewrite urls_of_references. reflexivity.
Qed.

(** X8: on an ok response whose body has the shape of [nvd_body],
    [scrape_cve] makes one request, for the page of the id, and returns
    the id, the description and the links in the order of the body. *)
Theorem scrape_cve_well_formed
        (cve_id : string) (resp : response) (description : value)
        (links : list value) (log : list string) :
  requests_get (nvd_url cve_id) = Ret resp ->
  ok resp = true ->
  json resp = Ret (nvd_body description links) ->
  scrape_cve requests_get cve_id log
  = (Ret (Some {| raw_id := cve_id; raw_desc := description;
                  raw_links := links |}),
     (log ++ [nvd_url cve_id])%list).
Proof.
  intros Hget Hok Hjson.
  unfold scrape_cve, http_get, bindM. fold (nvd_url cve_id).
  rewrite Hget, Hok. cbn [negb]. unfold lift. rewrite Hjson.
  unfold nvd_body.
  cbn [bind getitem assoc String.eqb Ascii.eqb Bool.eqb first iterate].
  rewrite urls_of_references. reflexivity.
Qed.

(** What [scrape_cve] has seen when it returns an entry. *)
Lemma scrape_cve_some (cve_id : string) (log log' : list string)
      (raw : raw_entry) :
  scrape_cve requests_get cve_id log = (Ret (Some raw), log') ->
  raw_id raw = cve_id /\
  exists resp, requests_get (nvd_url cve_id) = Ret resp /\ ok resp = true.
Proof.
  unfold scrape_cve, http_get, bindM. fold (nvd_url cve_id).
  destruct (requests_get (nvd_url cve_id)) as [resp|]; [|discriminate].
  destruct (ok resp) eqn:Hok; cbn [negb]; [|discriminate].
  unfold lift. intros H. split; [|now exists resp].
  repeat match type of H with
         | context [bind ?x _] => destruct x; cbn [bind] in H; try discriminate
         end.
  now injection H as <- _.
Qed.

(** X9: [get_cve] returns an entry only for an id that is valid once
    uppercased and for which the upstream gave an ok response; the id of
    the entry is the uppercased id, and exactly one request was made, for
    the page of that id. *)
Theorem get_cve_some (cve_id : string) (log log' : list string) (e : entry) :
  get_cve url_for requests_get cve_id log = (Ret (Some e), log') ->
  is_valid_cve_id (upper cve_id) = true /\
  id e = upper cve_id /\
  log' = (log ++ [nvd_url (upper cve_id)])%list /\
  exists resp,
    requests_get (nvd_url (upper cve_id)) = Ret resp /\ ok resp = true.
Proof.
  unfold get_cve.
  destruct (is_valid_cve_id (upper cve_id)); [|discriminate].
  unfold bindM.
  pose proof (scrape_cve_log requests_get (upper cve_id) log) as Hlog.
  destruct (scrape_cve requests_get (upper cve_id) log) as [[[raw|]|] l] eqn:S;
    try discriminate.
  cbn [snd] in Hlog. subst l.
  apply scrape_cve_some in S as [Hid Hresp].
  unfold lift.
  destruct (process_cve url_for raw) as [e'|] eqn:P; cbn [bind]; [|discriminate].
  intros [= -> <-].
  apply process_links_spec in P as (P & _). cbn [id] in P.
  repeat split; [congruence | assumption].
Qed.

(** X10: ids are compared in uppercase: [get_cve] gives the same outcome
    for an id and for its uppercase form, and an id that is valid as given
    is its own uppercase form. *)
Theorem get_cve_upper (cve_id : string) (log : list string) :
  get_cve url_for requests_get (upper cve_id) log
  = get_cve url_for requests_get cve_id log /\
  (is_valid_cve_id cve_id = true -> upper cve_id = cve_id).
Proof.
  split.
  - unfold get_cve. now rewrite upper_idempotent.
  - intros (year & number & nl & -> & _ & Hy & _ & Hn & Hnl)%cve_pattern_shape.
    rewrite !upper_append, (upper_digits _ Hy), (upper_digits _ Hn).
    destruct Hnl; subst nl; reflexivity.
Qed.

(** X11: the failures of the fetch reach the caller of [get_cve] for a
    valid id: an exception of [requests.get], an exception of
    [response.json()] on an ok response, and [IndexError] for an ok
    response whose list [CVE_Items] is empty. *)
Theorem get_cve_fetch_failures (cve_id : string) (log : list string) :
  is_valid_cve_id (upper cve_id) = true ->
  (forall e, requests_get (nvd_url (upper cve_id)) = Raise e ->
             fst (get_cve url_for requests_get cve_id log) = Raise e) /\
  (forall resp e,
      requests_get (nvd_url (upper cve_id)) = Ret resp -> ok resp = true ->
      json resp = Raise e ->
      fst (get_cve url_for requests_get cve_id log) = Raise e) /\
  (forall resp data result,
      requests_get (nvd_url (upper cve_id)) = Ret resp -> ok resp = true ->
      json resp = Ret data ->
      getitem data "result" = Ret result ->
      getitem result "CVE_Items" = Ret (VList []) ->
      fst (get_cve url_for requests_get cve_id log) = Raise IndexError).
Proof.
  intros Hvalid. unfold get_cve. rewrite Hvalid.
  unfold scrape_cve, http_get, bindM. fold (nvd_url (upper cve_id)).
  split; [|split].
  - intros e ->. reflexivity.
  - intros resp e -> -> Hj. cbn [negb]. unfold lift. now rewrite Hj.
  - intros resp data result -> -> Hj Hr Hi. cbn [negb]. unfold lift.
    rewrite Hj. cbn [bind]. rewrite Hr. cbn [bind]. rewrite Hi. reflexivity.
Qed.

(** [get_cve] on a body of the shape of [nvd_body]. *)
Lemma get_cve_body
        (cve_id : string) (resp : response) (description : value)
        (links : list value) (log : list string) :
  is_valid_cve_id (upper cve_id) = true ->
  requests_get (nvd_url (upper cve_id)) = Ret resp ->
  ok resp = true ->
  json resp = Ret (nvd_body description links) ->
  get_cve url_for requests_get cve_id log
  = (e <- process_cve url_for
            {| raw_id := upper cve_id; raw_desc := description;
               raw_links := links |} ;;
     Ret (Some e),
     (log ++ [nvd_url (upper cve_id)])%list).
Proof.
  intros Hvalid Hget Hok Hjson. unfold get_cve. rewrite Hvalid.
  unfold bindM.
  rewrite (scrape_cve_body _ _ _ _ _ Hget Hok Hjson).
  reflexivity.
Qed.

(** X12: for a valid id and an ok response whose body has the shape of
    [nvd_body], [get_cve] is [process_cve] on the uppercased id, the
    description and the links of the body, after one request. *)
Theorem get_cve_well_formed
        (cve_id : string) (resp : response) (description : value)
        (links : list value) (log : list string) :
  is_valid_cve_id (upper cve_id) = true ->
  requests_get (nvd_url (upper cve_id)) = Ret resp ->
  ok resp = true ->
  json resp = Ret (nvd_body description links) ->
  get_cve url_for requests_get cve_id log
  = (e <- process_cve url_for
            {| raw_id := upper cve_id; raw_desc := description;
               raw_links := links |} ;;
     Ret (Some e),
     (log ++ [nvd_url (upper cve_id)])%list).
Proof.
  intros Hvalid Hget Hok Hjson. unfold get_cve. rewrite Hvalid.
  unfold bindM.
  rewrite (scrape_cve_body _ _ _ _ _ Hget Hok Hjson).
  reflexivity.
Qed.

End FetchProperties.

Lemma scrape_cve_well_formed_witness :
  scrape_cve one_cve "CVE-2014-0160" []
  = (Ret (Some {| raw_id := "CVE-2014-0160"; raw_desc := VStr "Heartbleed";
                  raw_links := heartbleed_links |}),
     [nvd_url "CVE-2014-0160"]).
Proof.
  apply (scrape_cve_well_formed one_cve "CVE-2014-0160"
           {| ok := true;
              json := Ret (nvd_body (VStr "Heartbleed") heartbleed_links) |}
           (VStr "Heartbleed") heartbleed_links []);
    reflexivity.
Defined.

Lemma get_cve_some_witness :
  is_valid_cve_id (upper "cve-2014-0160") = true /\
  exists resp,
    one_cve (nvd_url (upper "cve-2014-0160")) = Ret resp /\ ok resp = true.
Proof.
  match goal with
  | |- _ /\ ?P =>
      refine ((fun H : _ /\ _ /\ _ /\ P => conj (proj1 H) (proj2 (proj2 (proj2 H))))
                (get_cve_some info_page_url one_cve "cve-2014-0160" [] _ _ eq_refl))
  end.
Defined.

Lemma get_cve_upper_witness : upper "CVE-2014-0160" = "CVE-2014-0160".
Proof.
  apply (proj2 (get_cve_upper info_page_url one_cve "CVE-2014-0160" [])).
  reflexivity.
Defined.

Lemma get_cve_fetch_failures_witness :
  fst (get_cve info_page_url unreachable "CVE-2014-0160" [])
  = Raise RequestException /\
  fst (get_cve info_page_url no_items "CVE-2014-0160" []) = Raise IndexError.
Proof.
  split.
  - apply (proj1 (get_cve_fetch_failures info_page_url unreachable
                    "CVE-2014-0160" [] eq_refl)).
    reflexivity.
  - apply (proj2 (proj2 (get_cve_fetch_failures info_page_url no_items
                           "CVE-2014-0160" [] eq_refl))
             {| ok := true;
                json := Ret (VDict [("result", VDict [("CVE_Items", VList [])])]) |}
             (VDict [("result", VDict [("CVE_Items", VList [])])])
             (VDict [("CVE_Items", VList [])]));
      reflexivity.
Defined.

Lemma get_cve_well_formed_witness :
  get_cve info_page_url one_cve "cve-2014-0160" []
  = (e <- process_cve info_page_url
            {| raw_id := "CVE-2014-0160"; raw_desc := VStr "Heartbleed";
               raw_links := heartbleed_links |} ;;
     Ret (Some e),
     [nvd_url "CVE-2014-0160"]).
Proof.
  apply (get_cve_well_formed info_page_url one_cve "cve-2014-0160"
           {| ok := true;
              json := Ret (nvd_body (VStr "Heartbleed") heartbleed_links) |}
           (VStr "Heartbleed") heartbleed_links []);
    reflexivity.
Defined.

(** ** Identifiers *)

Lemma forall_chars_append (p : ascii -> bool) (a b : string) :
  forall_chars p (a ++ b) = forall_chars p a && forall_chars p b.
Proof.
  induction a as [|c a IH]; cbn [append forall_chars]; [reflexivity|].
  now rewrite IH, andb_assoc.
Qed.

Lemma digits_are_id_chars (s : string) :
  forall_chars digit s = true -> forall_chars id_char s = true.
Proof.
  induction s as [|c s IH]; cbn [forall_chars]; [reflexivity|].
  intros [Hc Hs]%andb_true_iff. rewrite (IH Hs).
  unfold id_char. now rewrite Hc.
Qed.

(** A string of the form of a VulnerabilityId holds only digits, capital
    letters and hyphens. *)
Lemma vulnerability_id_chars (s : string) :
  vulnerability_id s -> forall_chars id_char s = true.
Proof.
  intros (year & number & -> & _ & Hy & _ & Hn).
  rewrite !forall_chars_append.
  rewrite (digits_are_id_chars _ Hy), (digits_are_id_chars _ Hn).
  reflexivity.
Qed.

Section IdentifierProperties.

Variable url_for : string -> string -> string -> string -> string -> string.
Variable requests_get : string -> pyres response.

(** C5 (the code departs from it): the id ["CVE-2021-12345"] followed by
    a newline is not of the form [CVE-\d{4}-\d{4,7}], before or after
    uppercasing, yet [is_valid_cve_id] accepts it, because the [$] of
    [cve_pattern] also matches before a newline that ends the string;
    [get_cve] then makes the request for it, newline included, instead of
    rejecting it before any external call. *)
Theorem get_cve_fetches_for_trailing_newline (log : list string) :
  let cve_id := "CVE-2021-12345" ++ newline in
  ~ vulnerability_id cve_id /\
  ~ vulnerability_id (upper cve_id) /\
  is_valid_cve_id (upper cve_id) = true /\
  snd (get_cve url_for requests_get cve_id log)
  = (log ++ [nvd_url cve_id])%list.
Proof.
  cbn zeta. split; [|split; [|split]].
  - intros H. apply vulnerability_id_chars in H. vm_compute in H. discriminate.
  - intros H. apply vulnerability_id_chars in H. vm_compute in H. discriminate.
  - reflexivity.
  - unfold get_cve.
    change (is_valid_cve_id (upper ("CVE-2021-12345" ++ newline))) with true.
    cbv iota. unfold bindM.
    pose proof (scrape_cve_log requests_get
                  (upper ("CVE-2021-12345" ++ newline)) log) as Hlog.
    destruct (scrape_cve requests_get (upper ("CVE-2021-12345" ++ newline)) log)
      as [[[raw|]|e] l']; cbn [snd] in Hlog; subst l'; reflexivity.
Qed.

(** C7: [is_valid_cve_id] accepts ["CVE-2021-12345"] and rejects
    ["CVE-21-12345"]; [get_cve] uppercases the id before validating it, so
    the lowercase ["cve-2021-12345"] is accepted and treated as
    ["CVE-2021-12345"]: the request is made, for the page of
    ["CVE-2021-12345"], and on a well-formed answer the entry built has
    the id ["CVE-2021-12345"]; for ["CVE-21-12345"] no request is made. *)
Theorem cve_id_validation_examples (log : list string) :
  is_valid_cve_id "CVE-2021-12345" = true /\
  is_valid_cve_id "CVE-21-12345" = false /\
  upper "cve-2021-12345" = "CVE-2021-12345" /\
  is_valid_cve_id (upper "cve-2021-12345") = true /\
  get_cve url_for requests_get "cve-2021-12345" log
  = get_cve url_for requests_get "CVE-2021-12345" log /\
  snd (get_cve url_for requests_get "cve-2021-12345" log)
  = (log ++ [nvd_url "CVE-2021-12345"])%list /\
  get_cve url_for requests_get "CVE-21-12345" log = (Ret None, log) /\
  (forall resp description links,
     requests_get (nvd_url "CVE-2021-12345") = Ret resp ->
     ok resp = true ->
     json resp = Ret (nvd_body description links) ->
     fst (get_cve url_for requests_get "cve-2021-12345" log)
     = (e <- process_cve url_for
               {| raw_id := "CVE-2021-12345"; raw_desc := description;
                  raw_links := links |} ;;
        Ret (Some e))).
Proof.
  assert (Hlog : snd (get_cve url_for requests_get "cve-2021-12345" log)
                 = (log ++ [nvd_url "CVE-2021-12345"])%list).
  { unfold get_cve.
    change (is_valid_cve_id (upper "cve-2021-12345")) with true.
    change (upper "cve-2021-12345") with "CVE-2021-12345".
    cbv iota. unfold bindM.
    pose proof (scrape_cve_log requests_get "CVE-2021-12345" log) as Hlog.
    destruct (scrape_cve requests_get "CVE-2021-12345" log)
      as [[[raw|]|e] l']; cbn [snd] in Hlog; subst l'; reflexivity. }
  repeat split; try assumption.
  intros resp description links Hget Hok Hjson.
  rewrite (get_cve_body url_for requests_get "cve-2021-12345" resp
             description links log); trivial.
Qed.

End IdentifierProperties.

Lemma cve_id_validation_examples_witness :
  fst (get_cve info_page_url
         (fun _ => Ret {| ok := true;
                          json := Ret (nvd_body (VStr "An example")
                                         [VStr "https://example.com/advisory"]) |})
         "cve-2021-12345" [])
  = (e <- process_cve info_page_url
            {| raw_id := "CVE-2021-12345"; raw_desc := VStr "An example";
               raw_links := [VStr "https://example.com/advisory"] |} ;;
     Ret (Some e)).
Proof.
  apply (proj2 (proj2 (proj2 (proj2 (proj2 (proj2 (proj2
           (cve_id_validation_examples info_page_url
              (fun _ => Ret {| ok := true;
                               json := Ret (nvd_body (VStr "An example")
                                              [VStr "https://example.com/advisory"]) |})
              [])))))))
           {| ok := true;
              json := Ret (nvd_body (VStr "An example")
                             [VStr "https://example.com/advisory"]) |}
           (VStr "An example") [VStr "https://example.com/advisory"]);
    reflexivity.
Defined.

(** ** The CVE page *)





Section PageProperties.

Variable url_for : string -> string -> string -> string -> string -> string.
Variable requests_get : string -> pyres response.




End PageProperties.




(** ** Users and passwords *)

Lemma filter_by_absent (name : string) (table : list Auth.User) :
  Auth.filter_by name table = [] <-> ~ In name (map Auth.username table).
Proof.
  unfold Auth.filter_by. induction table as [|u table IH]; cbn [filter map In].
  - tauto.
  - destruct (String.eqb_spec (Auth.username u) name) as [E|E].
    + split; [discriminate | tauto].
    + rewrite IH. tauto.
Qed.

(** With unique usernames a username selects at most one row. *)
Lemma filter_by_unique (name : string) (table : list Auth.User) :
  NoDup (map Auth.username table) ->
  Auth.filter_by name table = [] \/
  exists u, Auth.filter_by name table = [u] /\ In u table /\ Auth.username u = name.
Proof.
  induction table as [|u table IH]; cbn [map]; intros H; [now left|].
  inversion H as [|? ? Hu Ht]; subst.
  unfold Auth.filter_by in *. cbn [filter].
  destruct (String.eqb_spec (Auth.username u) name) as [E|E].
  - right. exists u. rewrite E in Hu.
    apply filter_by_absent in Hu. unfold Auth.filter_by in Hu. rewrite Hu.
    repeat split; [now left | assumption].
  - destruct (IH Ht) as [H0 | (v & Hv & Hin & Hname)]; [now left|].
    right. exists v. repeat split; [assumption | now right | assumption].
Qed.

Lemma filter_by_app (name : string) (t1 t2 : list Auth.User) :
  Auth.filter_by name (t1 ++ t2)%list
  = (Auth.filter_by name t1 ++ Auth.filter_by name t2)%list.
Proof. apply filter_app. Qed.

Lemma NoDup_snoc {A} (l : list A) (a : A) :
  NoDup l -> ~ In a l -> NoDup (l ++ [a])%list.
Proof.
  induction l as [|b l IH]; cbn [app]; intros Hl Ha.
  - repeat constructor. tauto.
  - inversion Hl; subst. constructor.
    + rewrite in_app_iff. cbn [In] in *. intuition congruence.
    + apply IH; [assumption|]. cbn [In] in Ha. tauto.
Qed.

Section AuthProperties.

Variable generate_password_hash : string -> string.
Variable check_password_hash : string -> string -> bool.

(** X16: on a table with unique usernames [create_user] does not raise
    and keeps the usernames unique: it adds a user, at the end of the
    table and with the generated hash, exactly when the username is not
    taken, and otherwise returns [False] and changes nothing. *)
Theorem create_user_keeps_usernames_unique
        (st : Auth.state) (name password : string) :
  NoDup (map Auth.username (Auth.users st)) ->
  exists created st',
    Auth.create_user generate_password_hash st name password
    = Auth.Done (created, st') /\
    NoDup (map Auth.username (Auth.users st')) /\
    In name (map Auth.username (Auth.users st')) /\
    (created = true <-> ~ In name (map Auth.username (Auth.users st))) /\
    (created = false -> st' = st) /\
    (created = true ->
     Auth.users st'
     = (Auth.users st
        ++ [{| Auth.username := name;
               Auth.password_hash := generate_password_hash password |}])%list /\
     Auth.session_user st' = Auth.session_user st).
Proof using generate_password_hash.
  clear check_password_hash.
  intros Hnd. unfold Auth.create_user.
  destruct (filter_by_unique name _ Hnd) as [H0 | (u & Hu & Hin & Hname)].
  - rewrite H0. cbn [Auth.scalar].
    apply filter_by_absent in H0.
    eexists true, _. split; [reflexivity|].
    cbn [Auth.users Auth.session_user]. rewrite map_app. cbn [map Auth.username].
    repeat split; try discriminate; try tauto.
    + now apply NoDup_snoc.
    + apply in_app_iff. right. now left.
  - rewrite Hu. cbn [Auth.scalar].
    assert (Hin' : In name (map Auth.username (Auth.users st))).
    { rewrite <- Hname. now apply in_map. }
    exists false, st. repeat split; try discriminate; try tauto.
Qed.

(** X17: a user that [create_user] has just created is authenticated with
    the password given at creation, and becomes the user of the session,
    provided the check of werkzeug accepts the hashes it generates. *)
Theorem create_then_authenticate
        (st st' : Auth.state) (name password : string) :
  (forall p, check_password_hash (generate_password_hash p) p = true) ->
  Auth.create_user generate_password_hash st name password
  = Auth.Done (true, st') ->
  Auth.authenticate_user check_password_hash st' name password
  = (true,
     Auth.login_user st'
       {| Auth.username := name;
          Auth.password_hash := generate_password_hash password |}).
Proof.
  intros Hcheck. unfold Auth.create_user.
  destruct (Auth.filter_by name (Auth.users st)) as [|u [|v rows]] eqn:F;
    cbn [Auth.scalar]; [|discriminate|discriminate].
  intros [= <-].
  unfold Auth.authenticate_user, Auth.load_user. cbn [Auth.users].
  rewrite filter_by_app, F. unfold Auth.filter_by. cbn [filter Auth.username app].
  rewrite String.eqb_refl. cbn [Auth.first_row Auth.password_hash].
  unfold Auth.process_password. now rewrite Hcheck.
Qed.

(** X18: a username cannot be taken over by creating it again: after a
    successful [create_user], a second one for the same username, with
    any password, returns [False] and changes nothing. *)
Theorem create_user_twice
        (st st' : Auth.state) (name password password' : string) :
  Auth.create_user generate_password_hash st name password
  = Auth.Done (true, st') ->
  Auth.create_user generate_password_hash st' name password'
  = Auth.Done (false, st').
Proof.
  unfold Auth.create_user at 1.
  destruct (Auth.filter_by name (Auth.users st)) as [|u [|v rows]] eqn:F;
    cbn [Auth.scalar]; [|discriminate|discriminate].
  intros [= <-]. unfold Auth.create_user. cbn [Auth.users].
  rewrite filter_by_app, F. unfold Auth.filter_by. cbn [filter Auth.username app].
  rewrite String.eqb_refl. reflexivity.
Qed.

(** X19: [authenticate_user] never changes the table of users; when it
    returns [False] nothing changes at all, and when it returns [True]
    the session holds a row of the table with that username whose hash
    the check accepts for the password. *)
Theorem authenticate_user_sound
        (st st' : Auth.state) (name password : string) (b : bool) :
  Auth.authenticate_user check_password_hash st name password = (b, st') ->
  Auth.users st' = Auth.users st /\
  (b = false -> st' = st) /\
  (b = true ->
   exists user,
     In user (Auth.users st) /\ Auth.username user = name /\
     check_password_hash (Auth.password_hash user) password = true /\
     Auth.session_user st' = Some user).
Proof.
  unfold Auth.authenticate_user, Auth.load_user, Auth.process_password.
  destruct (Auth.filter_by name (Auth.users st)) as [|user rows] eqn:F;
    cbn [Auth.first_row].
  - intros [= <- <-]. repeat split. discriminate.
  - assert (Hin : In user (Auth.filter_by name (Auth.users st)))
      by (rewrite F; now left).
    unfold Auth.filter_by in Hin. apply filter_In in Hin as [Hin Hname].
    apply String.eqb_eq in Hname.
    destruct (check_password_hash (Auth.password_hash user) password) eqn:C;
      intros [= <- <-].
    + repeat split; [discriminate|]. intros _. now exists user.
    + repeat split. discriminate.
Qed.

End AuthProperties.

Lemma create_user_keeps_usernames_unique_witness :
  NoDup (map Auth.username (Auth.users Auth.two_users)) /\
  Auth.create_user Auth.tagged_hash Auth.two_users "cwolff" "other"
  = Auth.Done (false, Auth.two_users) /\
  exists st',
    Auth.create_user Auth.tagged_hash Auth.two_users "tgiddings" "pass"
    = Auth.Done (true, st') /\
    NoDup (map Auth.username (Auth.users st')) /\
    Auth.users st'
    = (Auth.users Auth.two_users
       ++ [{| Auth.username := "tgiddings";
              Auth.password_hash := Auth.tagged_hash "pass" |}])%list.
Proof.
  assert (Hnd : NoDup (map Auth.username (Auth.users Auth.two_users))).
  { cbn. repeat constructor; cbn; intuition discriminate. }
  split; [exact Hnd|]. split.
  - destruct (create_user_keeps_usernames_unique Auth.tagged_hash
                Auth.two_users "cwolff" "other" Hnd)
      as (created & st' & H & _ & _ & Hiff & Hfalse & _).
    destruct created.
    + exfalso. apply (proj1 Hiff eq_refl). cbn. tauto.
    + now rewrite (Hfalse eq_refl) in H.
  - destruct (create_user_keeps_usernames_unique Auth.tagged_hash
                Auth.two_users "tgiddings" "pass" Hnd)
      as (created & st' & H & Hnd' & _ & Hiff & _ & Htrue).
    assert (Hc : created = true).
    { apply (proj2 Hiff). cbn. intuition discriminate. }
    subst created. exists st'. repeat split; try assumption.
    exact (proj1 (Htrue eq_refl)).
Defined.

Lemma create_then_authenticate_witness :
  Auth.authenticate_user Auth.tagged_check
    {| Auth.users := [{| Auth.username := "jbelke";
                         Auth.password_hash := "plain$hunter2" |}];
       Auth.session_user := None |}
    "jbelke" "hunter2"
  = (true,
     {| Auth.users := [{| Auth.username := "jbelke";
                          Auth.password_hash := "plain$hunter2" |}];
        Auth.session_user := Some {| Auth.username := "jbelke";
                                     Auth.password_hash := "plain$hunter2" |} |}).
Proof.
  apply (create_then_authenticate Auth.tagged_hash Auth.tagged_check
           Auth.no_users
           {| Auth.users := [{| Auth.username := "jbelke";
                                 Auth.password_hash := "plain$hunter2" |}];
              Auth.session_user := None |}
           "jbelke" "hunter2").
  - intros p. unfold Auth.tagged_check. apply String.eqb_refl.
  - reflexivity.
Defined.

Lemma create_user_twice_witness :
  Auth.create_user Auth.tagged_hash
    {| Auth.users := [{| Auth.username := "jbelke";
                         Auth.password_hash := "plain$hunter2" |}];
       Auth.session_user := None |}
    "jbelke" "other"
  = Auth.Done
      (false,
       {| Auth.users := [{| Auth.username := "jbelke";
                            Auth.password_hash := "plain$hunter2" |}];
          Auth.session_user := None |}).
Proof.
  apply (create_user_twice Auth.tagged_hash Auth.no_users
           {| Auth.users := [{| Auth.username := "jbelke";
                                 Auth.password_hash := "plain$hunter2" |}];
              Auth.session_user := None |}
           "jbelke" "hunter2" "other").
  reflexivity.
Defined.

Lemma authenticate_user_sound_witness :
  (exists user,
     In user (Auth.users Auth.two_users) /\
     Auth.username user = "cwolff" /\
     Auth.tagged_check (Auth.password_hash user) "s3cret" = true /\
     Auth.session_user
       (snd (Auth.authenticate_user Auth.tagged_check Auth.two_users
               "cwolff" "s3cret"))
     = Some user) /\
  snd (Auth.authenticate_user Auth.tagged_check Auth.two_users
         "cwolff" "hunter2")
  = Auth.two_users.
Proof.
  split.
  - apply (proj2 (proj2 (authenticate_user_sound Auth.tagged_check
                           Auth.two_users
                           (snd (Auth.authenticate_user Auth.tagged_check
                                   Auth.two_users "cwolff" "s3cret"))
                           "cwolff" "s3cret" true eq_refl))).
    reflexivity.
  - apply (proj1 (proj2 (authenticate_user_sound Auth.tagged_check
                           Auth.two_users
                           (snd (Auth.authenticate_user Auth.tagged_check
                                   Auth.two_users "cwolff" "hunter2"))
                           "cwolff" "hunter2" false eq_refl))).
    reflexivity.
Defined.
